(** * Hamiltonian Monte Carlo update step of [edward/inferences/hmc.py]

    A shallow embedding of [leapfrog] and [HMC.build_update] and the
    properties of the update step that the specification states.

    Numbers.  A TensorFlow float is modelled by a real number or one of the
    three IEEE special values (+Inf, -Inf, NaN).  Arithmetic on finite values
    is exact: rounding and overflow are outside the model.  The special
    values follow IEEE 754 (NaN is absorbing, Inf - Inf and 0 * Inf are NaN,
    every ordered comparison with NaN is false).

    Tensors.  A tensor is its static shape and its elements in row-major
    order.  The code only uses element-wise operations between tensors of
    one shape, products of a Python float with a tensor, and full
    reductions; an element-wise operation between tensors of different
    shapes is a failure of the model (TensorFlow would raise or broadcast,
    which [build_update] never relies on).

    Dictionaries.  A Python [dict] is an association list without repeated
    keys that keeps insertion order; [d[k] = v] replaces in place or
    appends, [d[k]] fails on a missing key.

    Failure.  A Python exception or a TensorFlow graph-construction or
    run-time error is [None]. *)

From Stdlib Require Import Reals Lra ZArith Lia.
From stdpp Require Import base option list.

(** ** Scalars *)

Inductive scalar : Type :=
| Fin (x : R)
| PInf
| NInf
| NaN.

Definition is_fin (a : scalar) : Prop :=
  match a with Fin _ => True | _ => False end.


Definition sneg (a : scalar) : scalar :=
  match a with
  | Fin x => Fin (- x)
  | PInf => NInf
  | NInf => PInf
  | NaN => NaN
  end.

Definition sadd (a b : scalar) : scalar :=
  match a, b with
  | NaN, _ | _, NaN => NaN
  | Fin x, Fin y => Fin (x + y)
  | PInf, NInf | NInf, PInf => NaN
  | PInf, _ | _, PInf => PInf
  | NInf, _ | _, NInf => NInf
  end.

Definition ssub (a b : scalar) : scalar := sadd a (sneg b).

(** The infinity with the sign of the real [x]; NaN when [x] is zero. *)
Definition inf_signed (x : R) : scalar :=
  if Rlt_dec 0 x then PInf else if Rlt_dec x 0 then NInf else NaN.

Definition smul (a b : scalar) : scalar :=
  match a, b with
  | NaN, _ | _, NaN => NaN
  | Fin x, Fin y => Fin (x * y)
  | Fin x, PInf | PInf, Fin x => inf_signed x
  | Fin x, NInf | NInf, Fin x => inf_signed (- x)
  | PInf, PInf | NInf, NInf => PInf
  | PInf, NInf | NInf, PInf => NInf
  end.

(** [a < b] of two floats: false as soon as one side is NaN. *)
Definition slt (a b : scalar) : bool :=
  match a, b with
  | NaN, _ | _, NaN => false
  | Fin x, Fin y => if Rlt_dec x y then true else false
  | NInf, NInf | PInf, _ => false
  | NInf, _ => true
  | Fin _, PInf => true
  | Fin _, NInf => false
  end.

(** [tf.log]: log 0 is -Inf, the log of a negative number is NaN. *)
Definition tf_log (a : scalar) : scalar :=
  match a with
  | Fin x => if Rlt_dec 0 x then Fin (ln x)
             else if Rlt_dec x 0 then NaN else NInf
  | PInf => PInf
  | NInf | NaN => NaN
  end.

(** ** Tensors *)

Record Tensor : Type := mkTensor { shape : list nat; data : list scalar }.

Definition numel (sh : list nat) : nat := foldr Nat.mul 1%nat sh.

(** A tensor holds as many elements as its shape says. *)
Definition tensor_wf (x : Tensor) : Prop := length (data x) = numel (shape x).

Definition tensor_fin (x : Tensor) : Prop := Forall is_fin (data x).

(** A tensor of the declared shape [sh]. *)
Definition has_shape (sh : list nat) (x : Tensor) : Prop :=
  shape x = sh ∧ tensor_wf x.

(** [c * x] for a Python float [c] and a tensor [x]. *)
Definition tf_scale (c : scalar) (x : Tensor) : Tensor :=
  mkTensor (shape x) (smul c <$> data x).

(** Element-wise sum of two tensors of one shape. *)
Definition tensor_sum (x y : Tensor) : Tensor :=
  mkTensor (shape x) (zip_with sadd (data x) (data y)).

(** [x + y] on tensors. *)
Definition tf_add (x y : Tensor) : option Tensor :=
  if decide (shape x = shape y) then Some (tensor_sum x y) else None.

(** [tf.square]. *)
Definition tf_square (x : Tensor) : Tensor :=
  mkTensor (shape x) ((fun a => smul a a) <$> data x).

(** A Python list of tensors handed to a TensorFlow operation is first
    packed into one tensor, along a new leading axis.  Packing is defined
    only for tensors of one common shape. *)
Definition tf_pack (xs : list Tensor) : option Tensor :=
  match xs with
  | [] => Some (mkTensor [0%nat] [])
  | x :: _ =>
      if decide (Forall (fun y => shape y = shape x) xs)
      then Some (mkTensor (length xs :: shape x) (concat (data <$> xs)))
      else None
  end.

Definition sum_scalars (l : list scalar) : scalar := foldr sadd (Fin 0) l.

(** [tf.reduce_sum] of a tensor, over all its axes. *)
Definition tf_reduce_sum (x : Tensor) : scalar := sum_scalars (data x).

(** [tf.reduce_sum] of a Python list of tensors. *)
Definition tf_reduce_sum_list (xs : list Tensor) : option scalar :=
  x ← tf_pack xs; Some (tf_reduce_sum x).

(** ** Dictionaries *)

(** A latent variable is identified by a number (Python hashes the random
    variable objects by identity). *)
Definition var : Type := nat.

Definition dict (V : Type) : Type := list (var * V).

Definition iterkeys {V} (d : dict V) : list var := fst <$> d.
Definition itervalues {V} (d : dict V) : list V := snd <$> d.
Definition iteritems {V} (d : dict V) : list (var * V) := d.

(** [d[k]] *)
Fixpoint dict_get {V} (k : var) (d : dict V) : option V :=
  match d with
  | [] => None
  | (k', v) :: d' => if decide (k = k') then Some v else dict_get k d'
  end.

(** [d[k] = v] *)
Fixpoint dict_set {V} (k : var) (v : V) (d : dict V) : dict V :=
  match d with
  | [] => [(k, v)]
  | (k', v') :: d' =>
      if decide (k = k') then (k, v) :: d' else (k', v') :: dict_set k v d'
  end.

(** [enumerate(l)] *)
Fixpoint enumerate_from {A} (i : nat) (l : list A) : list (nat * A) :=
  match l with
  | [] => []
  | x :: l' => (i, x) :: enumerate_from (S i) l'
  end.

Definition enumerate {A} (l : list A) : list (nat * A) := enumerate_from 0 l.

(** [for x in xs: s = body(x, s)], where the body may raise. *)
Fixpoint for_each {A S} (xs : list A) (body : A → S → option S) (s : S)
  : option S :=
  match xs with
  | [] => Some s
  | x :: xs' => s' ← body x s; for_each xs' body s'
  end.

(** [{k: v for k, v in zip(ks, vs)}] *)
Definition dict_of_zip {V} (ks : list var) (vs : list V) : dict V :=
  foldl (fun d kv => dict_set kv.1 kv.2 d) [] (zip ks vs).

Definition State : Type := dict Tensor.

(** ** The log joint density and its gradient *)

(** [HMC.log_joint] sums the log densities of the model's random variables
    (through [edward.util.copy] and their [log_prob]), or delegates to the
    model wrapper; either way the density itself is code outside this file,
    and [tf.gradients] differentiates what [log_joint] returns.  Both are
    taken as an oracle: the density at a point [z], and the partial
    derivative of the density at [z] with respect to the tensor that [z]
    holds for one variable.  The oracle is a function of the point alone
    (the data, and any sample that stands for a conditioning variable, are
    fixed), as the specification takes it. *)
Record Oracle : Type := mkOracle {
  log_joint : State → scalar;
  dlog_joint : State → var → Tensor;
}.

(** [tf.gradients(log_joint(z), list(six.itervalues(z)))]: one gradient per
    tensor of [z], in the order of the values of [z]. *)
Definition tf_gradients (lj : Oracle) (z : State) : list Tensor :=
  dlog_joint lj z <$> iterkeys z.

(** ** The leapfrog integrator *)

Definition leapfrog (z_old r_old : State) (step_size : scalar) (lj : Oracle)
  : option (State * State) :=
  let grad_log_joint := tf_gradients lj z_old in
  '(z_new, r_new) ←
    for_each (enumerate (iterkeys z_old))
      (fun '(i, key) '(z_new, r_new) =>
         z ← dict_get key z_old;
         r ← dict_get key r_old;
         g ← grad_log_joint !! i;
         r' ← tf_add r (tf_scale (smul (Fin 0.5) step_size) g);
         let r_new := dict_set key r' r_new in
         rk ← dict_get key r_new;
         z' ← tf_add z (tf_scale step_size rk);
         Some (dict_set key z' z_new, r_new))
      ([], []);
  let grad_log_joint := tf_gradients lj z_new in
  r_new ←
    for_each (enumerate (iterkeys z_old))
      (fun '(i, key) r_new =>
         rk ← dict_get key r_new;
         g ← grad_log_joint !! i;
         r' ← tf_add rk (tf_scale (smul (Fin 0.5) step_size) g);
         Some (dict_set key r' r_new))
      r_new;
  Some (z_new, r_new).

(** ** The update step *)

(** An [Empirical] random variable: the chain of samples [params], one row
    per chain index, and the shape of one sample. *)
Record Empirical : Type := mkEmpirical {
  params : list Tensor;
  event_shape : list nat;
}.

Definition get_event_shape (qz : Empirical) : list nat := event_shape qz.

(** [tf.gather(rows, i)] *)
Definition tf_gather (rows : list Tensor) (i : Z) : option Tensor :=
  if decide (0 ≤ i)%Z then rows !! Z.to_nat i else None.

(** [tf.scatter_update(variable, i, x)] on the variable behind [qz]: row [i]
    becomes [x], which must have the shape of a row. *)
Definition tf_scatter_update (qz : Empirical) (i : Z) (x : Tensor)
  : option Empirical :=
  if decide ((0 ≤ i < Z.of_nat (length (params qz)))%Z
             ∧ shape x = event_shape qz)
  then Some (mkEmpirical (<[Z.to_nat i := x]> (params qz)) (event_shape qz))
  else None.

(** The inference object: configuration and the TensorFlow variables that
    an update reads and writes. *)
Record HMC : Type := mkHMC {
  latent_vars : dict Empirical;
  step_size : scalar;
  n_steps : Z;
  t : Z;
  n_accept : Z;
}.

(** The random numbers one update consumes: the standard normal deviates
    behind each variable's momentum, and the uniform deviate. *)
Record Draws : Type := mkDraws {
  normal_draw : var → nat → R;
  uniform_draw : R;
}.

(** [Normal(mu=tf.zeros(sh), sigma=tf.ones(sh)).sample()]: a tensor of
    shape [sh] of standard normal deviates. *)
Definition normal_sample (sh : list nat) (eps : nat → R) : Tensor :=
  mkTensor sh ((fun i => Fin (eps i)) <$> seq 0 (numel sh)).

(** [range(n)] has [n] elements, none when [n] is not positive. *)
Definition range_len (n : Z) : nat := Z.to_nat n.

(** The integration loop of [build_update]: [n] passes of its body, from
    the current [(new_sample, new_r_sample)]. *)
Fixpoint simulate (n : nat) (old_sample old_r_sample : State)
    (step_size : scalar) (lj : Oracle) (new : State * State)
  : option (State * State) :=
  match n with
  | O => Some new
  | S n' =>
      new' ← leapfrog old_sample old_r_sample step_size lj;
      simulate n' old_sample old_r_sample step_size lj new'
  end.

(** [0.5 * tf.square(r)] for every momentum tensor, then
    [tf.reduce_sum] of the list. *)
Definition kinetic (r_sample : State) : option scalar :=
  tf_reduce_sum_list
    ((fun r => tf_scale (Fin 0.5) (tf_square r)) <$> itervalues r_sample).

(** What [tf.cond] returns when both branches return a list of tensors:
    the list of the chosen branch, or the tensor itself when that list has
    one element. *)
Inductive cond_output : Type :=
| CondList (xs : list Tensor)
| CondTensor (x : Tensor).

Definition tf_cond (pred : bool) (true_fn false_fn : list Tensor)
  : cond_output :=
  match (if pred then true_fn else false_fn) with
  | [x] => CondTensor x
  | xs => CondList xs
  end.

(** Everything one update computes on the way. *)
Record Update : Type := mkUpdate {
  old_sample : State;
  old_r_sample : State;
  new_sample : State;
  new_r_sample : State;
  ratio : scalar;
  accept : bool;
  sample : State;
  latent_vars' : dict Empirical;
  n_accept' : Z;
}.

Definition build_update (self : HMC) (lj : Oracle) (rng : Draws)
  : option Update :=
  old_sample ←
    for_each (iteritems (latent_vars self))
      (fun '(z, qz) d =>
         x ← tf_gather (params qz) (Z.max (t self - 1) 0);
         Some (dict_set z x d))
      [];
  (* Sample momentum. *)
  let old_r_sample :=
    foldl (fun d '(z, qz) =>
             let event_shape := get_event_shape qz in
             dict_set z (normal_sample event_shape (normal_draw rng z)) d)
      [] (iteritems (latent_vars self)) in
  (* Simulate Hamiltonian dynamics. *)
  '(new_sample, new_r_sample) ←
    simulate (range_len (n_steps self)) old_sample old_r_sample
      (step_size self) lj (old_sample, old_r_sample);
  (* Calculate acceptance ratio. *)
  ratio ← kinetic old_r_sample;
  ke_new ← kinetic new_r_sample;
  let ratio := ssub ratio ke_new in
  let ratio := sadd ratio (log_joint lj new_sample) in
  let ratio := ssub ratio (log_joint lj old_sample) in
  (* Accept or reject sample. *)
  let u := Fin (uniform_draw rng) in
  let accept := slt (tf_log u) ratio in
  let sample_values :=
    tf_cond accept (itervalues new_sample) (itervalues old_sample) in
  let sample_values :=
    match sample_values with
    | CondList xs => xs
    | CondTensor x => [x]
    end in
  let sample := dict_of_zip (iterkeys new_sample) sample_values in
  (* Update Empirical random variables. *)
  latent_vars' ←
    for_each (iteritems (latent_vars self))
      (fun '(z, qz) d =>
         x ← dict_get z sample;
         qz' ← tf_scatter_update qz (t self) x;
         Some (dict_set z qz' d))
      [];
  (* Increment n_accept (if accepted). *)
  let n_accept' := (n_accept self + (if accept then 1 else 0))%Z in
  Some (mkUpdate old_sample old_r_sample new_sample new_r_sample
          ratio accept sample latent_vars' n_accept').

(** * Auxiliary definitions *)

(** ** Operations *)

(** [kick c x g] is [x + c * g]: the update that every line of the
    integrator performs. *)
Definition kick (c : scalar) (x g : Tensor) : Tensor :=
  tensor_sum x (tf_scale c g).

(** [dict_map f d] transforms the value of each key, keeping keys and
    order. *)
Definition dict_map {V W} (f : var → V → W) (d : dict V) : dict W :=
  (fun kv => (kv.1, f kv.1 kv.2)) <$> d.

(** The value of [d[k]], for a key that [d] holds. *)
Definition dict_total (d : State) (k : var) : Tensor :=
  default (mkTensor [] []) (dict_get k d).

(** ** Preconditions and invariants *)

(** What [leapfrog] needs of its momentum argument: a momentum for every
    key of [z], of the shape of the position. *)
Definition covers (z r : State) : Prop :=
  ∀ k x, dict_get k z = Some x → ∃ y, dict_get k r = Some y ∧ shape y = shape x.

(** What [tf.gradients] guarantees: the gradient with respect to a tensor
    has the shape, and so the number of elements, of that tensor. *)
Definition same_dims (g x : Tensor) : Prop :=
  shape g = shape x ∧ length (data g) = length (data x).

Definition oracle_shaped (lj : Oracle) : Prop :=
  ∀ z k x, dict_get k z = Some x → same_dims (dlog_joint lj z k) x.

(** A State over the latent variables [lv]: the keys of [lv], in their
    order, each with a tensor of the event shape its variable declares. *)
Definition state_over (lv : dict Empirical) (s : State) : Prop :=
  iterkeys s = iterkeys lv ∧
  ∀ k x qz, dict_get k s = Some x → dict_get k lv = Some qz →
            has_shape (event_shape qz) x.

(** What the inference object satisfies when [build_update] runs: the
    latent variables are the keys of a dictionary; every row of a chain has
    the event shape of its variable; the chain has a row [t]; and all
    variables have one event shape, which [tf.reduce_sum] needs to pack the
    list of their momenta. *)
Record wf_hmc (self : HMC) : Prop := mk_wf_hmc {
  wf_keys : NoDup (iterkeys (latent_vars self));
  wf_rows : ∀ z qz, (z, qz) ∈ latent_vars self →
            Forall (has_shape (event_shape qz)) (params qz);
  wf_index : ∀ z qz, (z, qz) ∈ latent_vars self →
             (0 ≤ t self < Z.of_nat (length (params qz)))%Z;
  wf_pack : ∀ z1 qz1 z2 qz2,
            (z1, qz1) ∈ latent_vars self → (z2, qz2) ∈ latent_vars self →
            event_shape qz1 = event_shape qz2;
}.

(** A State of real numbers. *)
Definition state_fin (s : State) : Prop :=
  ∀ k x, dict_get k s = Some x → tensor_fin x.

(** A density with real-valued gradients. *)
Definition oracle_fin (lj : Oracle) : Prop :=
  ∀ z k, state_fin z → tensor_fin (dlog_joint lj z k).

(** A phase-space point of real numbers: position and momentum hold the
    same variables in the same order (as the States that [build_update]
    and [leapfrog] build do), with finite tensors of the same dimensions. *)
Definition phase_ok (z r : State) : Prop :=
  NoDup (iterkeys z) ∧ iterkeys r = iterkeys z ∧
  (∀ k x y, dict_get k z = Some x → dict_get k r = Some y → same_dims y x) ∧
  state_fin z ∧ state_fin r.

(** ** The leapfrog step in closed form *)

(** The momentum of [k] after the first half step from [(z, r)]. *)
Definition half_kick (lj : Oracle) (h : scalar) (z r : State) (k : var)
  : Tensor :=
  kick (smul (Fin 0.5) h) (dict_total r k) (dlog_joint lj z k).

(** The position that one leapfrog step from [(z, r)] reaches. *)
Definition leap_z (lj : Oracle) (h : scalar) (z r : State) : State :=
  dict_map (fun k x => kick h x (half_kick lj h z r k)) z.

(** The momentum that one leapfrog step from [(z, r)] reaches. *)
Definition leap_r (lj : Oracle) (h : scalar) (z r : State) : State :=
  dict_map (fun k _ =>
    kick (smul (Fin 0.5) h) (half_kick lj h z r k)
      (dlog_joint lj (leap_z lj h z r) k)) z.

(** [n] leapfrog steps, each from the point the previous one reached. *)
Fixpoint leapfrog_iter (n : nat) (z r : State) (h : scalar) (lj : Oracle)
  : option (State * State) :=
  match n with
  | O => Some (z, r)
  | S n' => '(z', r') ← leapfrog z r h lj; leapfrog_iter n' z' r' h lj
  end.

(** ** The update step in closed form *)

Definition read_index (self : HMC) : nat := Z.to_nat (Z.max (t self - 1) 0).

Definition read_row (self : HMC) (qz : Empirical) : Tensor :=
  default (mkTensor [] []) (params qz !! read_index self).

Definition old_sample_of (self : HMC) : State :=
  dict_map (fun _ qz => read_row self qz) (latent_vars self).

Definition old_r_sample_of (self : HMC) (rng : Draws) : State :=
  dict_map (fun z qz => normal_sample (event_shape qz) (normal_draw rng z))
    (latent_vars self).

(** The proposal: the start point when the loop does not run, and one
    leapfrog step from the start point when it runs, however often. *)
Definition proposal_of (self : HMC) (lj : Oracle) (rng : Draws)
  : State * State :=
  let old := old_sample_of self in
  let old_r := old_r_sample_of self rng in
  match range_len (n_steps self) with
  | O => (old, old_r)
  | S _ => (leap_z lj (step_size self) old old_r,
            leap_r lj (step_size self) old old_r)
  end.

Definition kinetic_of (r : State) : scalar :=
  sum_scalars
    (concat (data <$> ((fun x => tf_scale (Fin 0.5) (tf_square x))
                         <$> itervalues r))).

Definition ratio_of (self : HMC) (lj : Oracle) (rng : Draws) : scalar :=
  let p := proposal_of self lj rng in
  ssub (sadd (ssub (kinetic_of (old_r_sample_of self rng)) (kinetic_of p.2))
          (log_joint lj p.1))
    (log_joint lj (old_sample_of self)).

Definition accept_of (self : HMC) (lj : Oracle) (rng : Draws) : bool :=
  slt (tf_log (Fin (uniform_draw rng))) (ratio_of self lj rng).

Definition sample_of (self : HMC) (lj : Oracle) (rng : Draws) : State :=
  if accept_of self lj rng then (proposal_of self lj rng).1
  else old_sample_of self.

Definition commit_of (self : HMC) (lj : Oracle) (rng : Draws)
  : dict Empirical :=
  dict_map (fun z qz =>
    mkEmpirical (<[Z.to_nat (t self) := dict_total (sample_of self lj rng) z]>
                   (params qz))
      (event_shape qz))
    (latent_vars self).

Definition update_of (self : HMC) (lj : Oracle) (rng : Draws) : Update :=
  let p := proposal_of self lj rng in
  mkUpdate (old_sample_of self) (old_r_sample_of self rng) p.1 p.2
    (ratio_of self lj rng) (accept_of self lj rng) (sample_of self lj rng)
    (commit_of self lj rng)
    (n_accept self + (if accept_of self lj rng then 1 else 0))%Z.

(** ** Quantities of the specification *)



(** [h / 2] *)
Definition half_of (h : scalar) : scalar := smul h (Fin (/ 2)).

(** ** Example configurations *)

(** The density of independent standard normals, [log p(z) = - sum z^2 / 2]
    up to a constant, whose gradient at [z] is [- z]. *)
Definition gauss : Oracle :=
  mkOracle (fun z => sneg (kinetic_of z))
           (fun z k => tf_scale (Fin (-1)) (dict_total z k)).

(** A scalar tensor. *)
Definition scalar_tensor (a : R) : Tensor := mkTensor [] [Fin a].

(** One scalar latent variable whose chain starts at 1, about to take its
    first step of two leapfrog steps of size 1. *)
Definition one_var : HMC :=
  mkHMC [(0%nat, mkEmpirical [scalar_tensor 1; scalar_tensor 0] [])]
        (Fin 1) 2 1 0.

(** Zero momentum and a uniform draw of 1/2. *)
Definition still : Draws := mkDraws (fun _ _ => 0%R) 0.5%R.

Definition vec2 (a b : R) : Tensor := mkTensor [2%nat] [Fin a; Fin b].

(** Two latent variables of event shape [2], chains of three rows, about to
    take their first step. *)
Definition two_vars : HMC :=
  mkHMC [(0%nat, mkEmpirical [vec2 1 0; vec2 0 0; vec2 0 0] [2%nat]);
         (1%nat, mkEmpirical [vec2 0 2; vec2 0 0; vec2 0 0] [2%nat])]
        (Fin 0.25) 2 1 0.



(** Two latent variables of different event shapes. *)
Definition mixed : HMC :=
  mkHMC [(0%nat, mkEmpirical [scalar_tensor 1; scalar_tensor 0] []);
         (1%nat, mkEmpirical [vec2 0 2; vec2 0 0] [2%nat])]
        (Fin 0.25) 2 1 0.

(** A start point of two variables with unit momenta. *)
Definition start_z : State := [(0%nat, vec2 1 0); (1%nat, vec2 0 2)].
Definition start_r : State := [(0%nat, vec2 1 1); (1%nat, vec2 (-1) 1)].

(** * The log joint density method *)

(** ** [HMC.log_joint] *)

(** A key of the [data] dictionary is a random variable of the model or
    something else (a placeholder). *)
Inductive data_key : Type :=
| DataRV (x : var)
| DataOther (p : nat).

(** A value of the [data] dictionary is a random variable (a distribution
    that stands for the key) or an observed value. *)
Inductive data_value : Type :=
| BoundRV (qx : var)
| BoundValue (v : Tensor).

(** The variable scopes that [log_joint] names: the prefix and
    [str(self.scope_iter)]. *)
Inductive scope : Type :=
| conditional_ (i : Z)
| prior_ (i : Z)
| likelihood_ (i : Z).

(** What [log_joint] uses of [edward.util.copy] and of the random variables,
    code outside this file, taken as total functions:
    [copy(qx, scope=s).value()], and
    [copy(x, dict_swap, scope=s).log_prob(v)]. *)
Record Graph : Type := mkGraph {
  copy_value : scope → var → Tensor;
  copy_log_prob : scope → var → State → Tensor → Tensor;
}.

(** The inference object as [log_joint] sees it: the fields of [HMC], the
    data, the model wrapper ([None], or its [log_prob]) and the counter of
    log joint calculations. *)
Record Inference : Type := mkInference {
  hmc : HMC;
  data_dict : list (data_key * data_value);
  model_wrapper : option (list (data_key * data_value) → State → scalar);
  scope_iter : Z;
}.

(** [isinstance(x, RandomVariable)] on a key of [data]. *)
Definition is_random_variable (x : data_key) : bool :=
  match x with DataRV _ => true | DataOther _ => false end.

(** The dictionary [dict_swap] that [log_joint] forms for the scope counter
    [i]: a copy of [z_sample] in which every random variable of [data] is
    bound to a sample of its distribution or to its observed value. *)
Definition dict_swap_of (g : Graph) (i : Z)
    (data : list (data_key * data_value)) (z_sample : State) : State :=
  foldl (fun dict_swap '(x, qx) =>
           match x with
           | DataRV x =>
               match qx with
               | BoundRV qx =>
                   dict_set x (copy_value g (conditional_ i) qx) dict_swap
               | BoundValue v => dict_set x v dict_swap
               end
           | DataOther _ => dict_swap
           end)
    z_sample data.

(** [self.log_joint(z_sample)]: what it returns, [None] when it raises, and
    the inference object afterwards. *)
Definition log_joint_method (g : Graph) (self : Inference) (z_sample : State)
  : option scalar * Inference :=
  match model_wrapper self with
  | None =>
      let self :=
        mkInference (hmc self) (data_dict self) (model_wrapper self)
          (scope_iter self + 1) in
      let dict_swap :=
        dict_swap_of g (scope_iter self) (data_dict self) z_sample in
      let log_joint :=
        log_joint ←
          for_each (iterkeys (latent_vars (hmc self)))
            (fun z log_joint =>
               v ← dict_get z dict_swap;
               let z_copy_log_prob :=
                 copy_log_prob g (prior_ (scope_iter self)) z dict_swap v in
               Some (sadd log_joint (tf_reduce_sum z_copy_log_prob)))
            (Fin 0);
        for_each (data_dict self).*1
          (fun x log_joint =>
             match x with
             | DataRV x =>
                 v ← dict_get x dict_swap;
                 let x_copy_log_prob :=
                   copy_log_prob g (likelihood_ (scope_iter self)) x
                     dict_swap v in
                 Some (sadd log_joint (tf_reduce_sum x_copy_log_prob))
             | DataOther _ => Some log_joint
             end)
          log_joint in
      (log_joint, self)
  | Some log_prob =>
      let x := data_dict self in
      (Some (log_prob x z_sample), self)
  end.

(** ** Auxiliary definitions *)

(** A run of calls of [log_joint], one per sample, on the inference object
    that the previous call left. *)
Fixpoint log_joint_calls (g : Graph) (self : Inference) (zs : list State)
  : list (option scalar) * Inference :=
  match zs with
  | [] => ([], self)
  | z :: zs' =>
      let '(out, self') := log_joint_method g self z in
      let '(outs, self'') := log_joint_calls g self' zs' in
      (out :: outs, self'')
  end.

(** The random variables among the keys of [data]. *)
Definition data_variables (data : list (data_key * data_value)) : list var :=
  omap (fun x => match x with DataRV x => Some x | DataOther _ => None end)
    data.*1.

(** The entries of [data] whose key is a random variable. *)
Definition random_variable_data (data : list (data_key * data_value))
  : list (data_key * data_value) :=
  filter (fun e => is_random_variable e.1 = true) data.

(** The inference object [self] with other data. *)
Definition with_data (self : Inference)
    (data : list (data_key * data_value)) : Inference :=
  mkInference (hmc self) data (model_wrapper self) (scope_iter self).

(** The momenta of [r], reversed. *)
Definition state_neg (r : State) : State :=
  dict_map (fun _ x => tf_scale (Fin (-1)) x) r.



(** ** More example configurations *)

(** A model whose log densities are all the scalar 1. *)
Definition unit_graph : Graph :=
  mkGraph (fun _ _ => scalar_tensor 0) (fun _ _ _ _ => scalar_tensor 1).

(** [two_vars] with data that observes variable 2, binds variable 3 to a
    distribution and feeds a placeholder. *)
Definition observed : Inference :=
  mkInference two_vars
    [(DataRV 2%nat, BoundValue (vec2 3 4));
     (DataOther 0%nat, BoundValue (vec2 0 0));
     (DataRV 3%nat, BoundRV 5%nat)]
    None 0.


(** * Properties *)

(** ** Scalars *)

Ltac real_cases :=
  repeat match goal with
    | |- context [Rlt_dec ?a ?b] => destruct (Rlt_dec a b)
    | H : context [Rlt_dec ?a ?b] |- _ => destruct (Rlt_dec a b)
    end.

Lemma inf_signed_pos x : (0 < x)%R → inf_signed x = PInf.
Proof. intros. unfold inf_signed. real_cases; [done | lra..]. Qed.

Lemma inf_signed_neg x : (x < 0)%R → inf_signed x = NInf.
Proof. intros. unfold inf_signed. real_cases; try done; lra. Qed.










(** Scalar arithmetic is unfolded only on request from here on. *)
#[local] Arguments smul : simpl never.
#[local] Arguments sadd : simpl never.
#[local] Arguments ssub : simpl never.
#[local] Arguments slt : simpl never.
#[local] Arguments tf_log : simpl never.

(** ** Tensors *)

Lemma tf_add_scale c x g :
  shape g = shape x → tf_add x (tf_scale c g) = Some (kick c x g).
Proof. intros H. unfold tf_add. simpl. by rewrite decide_True. Qed.

Lemma kick_wf c x g :
  tensor_wf x → tensor_wf g → shape g = shape x → tensor_wf (kick c x g).
Proof.
  unfold tensor_wf. simpl. intros Hx Hg Hs.
  rewrite length_zip_with, length_fmap, Hx, Hg, Hs. lia.
Qed.

Lemma kick_has_shape sh c x g :
  has_shape sh x → has_shape sh g → has_shape sh (kick c x g).
Proof.
  intros [Hx Hx'] [Hg Hg']. split; [done|].
  apply kick_wf; [done..|congruence].
Qed.

Lemma is_fin_inv a : is_fin a → ∃ x, a = Fin x.
Proof. destruct a; [eauto|done..]. Qed.

Lemma kick_fin c x g :
  tensor_fin x → tensor_fin g → tensor_fin (kick (Fin c) x g).
Proof.
  unfold tensor_fin. simpl. intros Hx. generalize (data g).
  induction Hx as [|a l Ha _ IH]; intros [|b l'] Hg; simpl; try constructor.
  - inversion_clear Hg as [|?? Hb _].
    destruct (is_fin_inv _ Ha) as [? ->], (is_fin_inv _ Hb) as [? ->]. done.
  - inversion_clear Hg. by apply IH.
Qed.

(** Undoing a kick, in exact arithmetic on finite tensors. *)
Lemma kick_undo c c' x g :
  (c + c' = 0)%R → tensor_fin x → tensor_fin g →
  length (data x) = length (data g) →
  kick (Fin c') (kick (Fin c) x g) g = x.
Proof.
  intros Hc. destruct x as [sh dx], g as [sg dg]. unfold kick, tensor_sum, tensor_fin.
  simpl. intros Hx Hg Hlen. f_equal. revert dg Hg Hlen.
  induction Hx as [|a l Ha _ IH]; intros [|b l'] Hg Hlen; simpl in *; try done.
  inversion_clear Hg as [|?? Hb Hl']. f_equal; [|apply IH; [done|lia]].
  destruct (is_fin_inv _ Ha) as [? ->], (is_fin_inv _ Hb) as [? ->].
  unfold sadd, smul. f_equal. nra.
Qed.

(** ** Dictionaries *)

Section dict_facts.
Context {V W : Type}.
Implicit Types (d pre post : dict V) (k : var) (v : V).

Lemma iterkeys_app pre post :
  iterkeys (pre ++ post) = iterkeys pre ++ iterkeys post.
Proof. apply fmap_app. Qed.

Lemma iterkeys_dict_map (f : var → V → W) d :
  iterkeys (dict_map f d) = iterkeys d.
Proof.
  unfold iterkeys, dict_map. rewrite <- list_fmap_compose.
  by apply list_fmap_ext.
Qed.

Lemma dict_map_app (f : var → V → W) pre post :
  dict_map f (pre ++ post) = dict_map f pre ++ dict_map f post.
Proof. apply fmap_app. Qed.

Lemma dict_get_map (f : var → V → W) k d :
  dict_get k (dict_map f d) = f k <$> dict_get k d.
Proof.
  induction d as [|[k' v] d IH]; simpl; [done|].
  destruct (decide (k = k')) as [->|]; [done|apply IH].
Qed.

Lemma dict_get_is_Some k v d : dict_get k d = Some v → k ∈ iterkeys d.
Proof.
  induction d as [|[k' v'] d IH]; simpl; [done|].
  destruct (decide (k = k')) as [->|]; intros; [left|right; auto].
Qed.

Lemma dict_get_middle k v pre post :
  k ∉ iterkeys pre → dict_get k (pre ++ (k, v) :: post) = Some v.
Proof.
  induction pre as [|[k' v'] pre IH]; simpl.
  - by rewrite decide_True.
  - rewrite not_elem_of_cons. intros [? ?]. rewrite decide_False; auto.
Qed.

Lemma dict_set_middle k v v' pre post :
  k ∉ iterkeys pre →
  dict_set k v' (pre ++ (k, v) :: post) = pre ++ (k, v') :: post.
Proof.
  induction pre as [|[k0 v0] pre IH]; simpl.
  - by rewrite decide_True.
  - rewrite not_elem_of_cons. intros [? ?]. rewrite decide_False by done.
    f_equal. auto.
Qed.

Lemma dict_set_fresh k v d :
  k ∉ iterkeys d → dict_set k v d = d ++ [(k, v)].
Proof.
  induction d as [|[k0 v0] d IH]; simpl; [done|].
  rewrite not_elem_of_cons. intros [? ?]. rewrite decide_False by done.
  f_equal. auto.
Qed.

Lemma dict_get_lookup i k v d :
  NoDup (iterkeys d) → d !! i = Some (k, v) → dict_get k d = Some v.
Proof.
  intros Hnd Hi. apply list_elem_of_split_length in Hi as (pre & post & -> & _).
  apply dict_get_middle. rewrite iterkeys_app in Hnd.
  apply NoDup_app in Hnd as (_ & Hpre & _). intros Hk.
  apply (Hpre _ Hk). simpl. left.
Qed.

(** Two dictionaries with the same keys in the same order and the same
    value at every key are the same dictionary. *)
Lemma dict_ext d d' :
  NoDup (iterkeys d) → iterkeys d = iterkeys d' →
  (∀ k, k ∈ iterkeys d → dict_get k d = dict_get k d') → d = d'.
Proof.
  revert d'. induction d as [|[k v] d IH]; intros [|[k' v'] d']; simpl;
    try done.
  intros Hnd [= <- Hk] Hget. apply NoDup_cons in Hnd as [Hfresh Hnd].
  pose proof (Hget k ltac:(left)) as Hv. simpl in Hv.
  rewrite !decide_True in Hv by done. injection Hv as <-.
  f_equal. apply IH; [done..|]. intros k0 Hk0.
  specialize (Hget k0 ltac:(by right)). simpl in Hget.
  rewrite !decide_False in Hget; [done|intros ->; by apply Hfresh..].
Qed.
End dict_facts.

(** A dictionary built key by key over a list without repeated keys holds
    the items of the list, in order. *)
Lemma for_each_dict_set {A V} (f : var → A → option V) (g : var → A → V)
    (l : dict A) (acc : dict A) :
  NoDup (iterkeys (acc ++ l)) →
  (∀ k a, (k, a) ∈ l → f k a = Some (g k a)) →
  for_each l (fun '(k, a) d => x ← f k a; Some (dict_set k x d))
    (dict_map g acc) = Some (dict_map g (acc ++ l)).
Proof.
  revert acc. induction l as [|[k a] l IH]; intros acc Hnd Hf; simpl.
  - by rewrite app_nil_r.
  - rewrite (Hf k a) by left. simpl.
    rewrite dict_set_fresh.
    + replace (dict_map g acc ++ [(k, g k a)]) with (dict_map g (acc ++ [(k, a)]))
        by (by rewrite dict_map_app).
      rewrite (cons_middle _ acc l), (assoc (++)) in Hnd |- *.
      apply IH; [done|]. intros. apply Hf. by right.
    + rewrite iterkeys_dict_map. rewrite iterkeys_app in Hnd.
      apply NoDup_app in Hnd as (_ & Hpre & _). intros Hk.
      apply (Hpre _ Hk). left.
Qed.

Lemma foldl_dict_set {A V} (g : var → A → V) (l acc : dict A) :
  NoDup (iterkeys (acc ++ l)) →
  foldl (fun d '(k, a) => dict_set k (g k a) d) (dict_map g acc) l
  = dict_map g (acc ++ l).
Proof.
  revert acc. induction l as [|[k a] l IH]; intros acc Hnd; simpl.
  - by rewrite app_nil_r.
  - rewrite dict_set_fresh.
    + replace (dict_map g acc ++ [(k, g k a)]) with (dict_map g (acc ++ [(k, a)]))
        by (by rewrite dict_map_app).
      rewrite (cons_middle _ acc l), (assoc (++)) in Hnd |- *. by apply IH.
    + rewrite iterkeys_dict_map. rewrite iterkeys_app in Hnd.
      apply NoDup_app in Hnd as (_ & Hpre & _). intros Hk.
      apply (Hpre _ Hk). left.
Qed.

Lemma foldl_pointwise {A B} (f g : A → B → A) (a : A) (l : list B) :
  (∀ a b, f a b = g a b) → foldl f a l = foldl g a l.
Proof. intros Hfg. revert a. induction l; simpl; intros; [done|]. by rewrite Hfg. Qed.

Lemma dict_of_zip_items {V} (d : dict V) :
  NoDup (iterkeys d) → dict_of_zip (iterkeys d) (itervalues d) = d.
Proof.
  intros Hnd. unfold dict_of_zip, iterkeys, itervalues. rewrite zip_fst_snd.
  pose proof (foldl_dict_set (fun _ (v : V) => v) d []) as H.
  assert (Hid : ∀ l : dict V, dict_map (fun _ v => v) l = l).
  { intros l. unfold dict_map. rewrite <- (list_fmap_id l) at 2.
    apply list_fmap_ext. by intros ? []. }
  rewrite !Hid in H. simpl in H. rewrite <- H at 2 by done.
  apply foldl_pointwise. by intros ? [].
Qed.

(** ** The leapfrog integrator in closed form *)

Lemma same_dims_has_shape sh g x :
  same_dims g x → has_shape sh x → has_shape sh g.
Proof.
  unfold has_shape, tensor_wf. intros [Hs Hl] [<- Hx]. split; congruence.
Qed.

Section leapfrog_closed.
Variables (lj : Oracle) (h : scalar) (z r : State).

Hypothesis Hnd : NoDup (iterkeys z).
Hypothesis Hcov : covers z r.
Hypothesis Hlj : oracle_shaped lj.

Let half_r : State := dict_map (fun k _ => half_kick lj h z r k) z.

Lemma NoDup_middle_fresh {V} (pre post : dict V) k v :
  NoDup (iterkeys (pre ++ (k, v) :: post)) → k ∉ iterkeys pre.
Proof.
  rewrite iterkeys_app. intros (_ & Hpre & _)%NoDup_app Hk.
  apply (Hpre _ Hk). left.
Qed.

Lemma gradient_at (z0 : State) pre post k (x : Tensor) :
  iterkeys z0 = iterkeys (pre ++ (k, x) :: post) →
  tf_gradients lj z0 !! length pre = Some (dlog_joint lj z0 k).
Proof.
  intros Hk. unfold tf_gradients. rewrite list_lookup_fmap, Hk, iterkeys_app.
  replace (length pre) with (length (iterkeys pre))
    by apply length_fmap.
  simpl. by rewrite list_lookup_middle.
Qed.

Lemma leapfrog_first_loop pre suf :
  z = pre ++ suf →
  for_each (enumerate_from (length pre) (iterkeys suf))
    (fun '(i, key) '(z_new, r_new) =>
       z0 ← dict_get key z;
       r0 ← dict_get key r;
       g ← tf_gradients lj z !! i;
       r' ← tf_add r0 (tf_scale (smul (Fin 0.5) h) g);
       let r_new := dict_set key r' r_new in
       rk ← dict_get key r_new;
       z' ← tf_add z0 (tf_scale h rk);
       Some (dict_set key z' z_new, r_new))
    (dict_map (fun k x => kick h x (half_kick lj h z r k)) pre,
     dict_map (fun k _ => half_kick lj h z r k) pre)
  = Some ((leap_z lj h z r), half_r).
Proof.
  revert pre. induction suf as [|[k x] suf IH]; intros pre Hz; simpl.
  - rewrite app_nil_r in Hz. by subst.
  - assert (Hfresh : k ∉ iterkeys pre) by (eapply NoDup_middle_fresh; by rewrite <- Hz).
    assert (Hzk : dict_get k z = Some x) by (rewrite Hz; by apply dict_get_middle).
    destruct (Hcov k x Hzk) as (y & Hrk & Hshape).
    rewrite Hzk, Hrk. simpl.
    rewrite (gradient_at z pre suf k x) by (by rewrite Hz). simpl.
    rewrite tf_add_scale by (rewrite (proj1 (Hlj z k x Hzk)); done). simpl.
    rewrite dict_set_fresh by (by rewrite iterkeys_dict_map).
    rewrite (dict_get_middle k _ _ []) by (by rewrite iterkeys_dict_map).
    simpl. rewrite tf_add_scale by (simpl; done). simpl.
    rewrite dict_set_fresh by (by rewrite iterkeys_dict_map).
    assert (Hy : kick (smul (Fin 0.5) h) y (dlog_joint lj z k) = half_kick lj h z r k).
    { unfold half_kick, dict_total. by rewrite Hrk. }
    rewrite Hy.
    specialize (IH (pre ++ [(k, x)])). rewrite length_app in IH. simpl in IH.
    rewrite Nat.add_1_r, !dict_map_app in IH. apply IH.
    by rewrite <- (assoc (++)).
Qed.

Lemma leapfrog_second_loop pre suf :
  z = pre ++ suf →
  for_each (enumerate_from (length pre) (iterkeys suf))
    (fun '(i, key) r_new =>
       rk ← dict_get key r_new;
       g ← tf_gradients lj (leap_z lj h z r) !! i;
       r' ← tf_add rk (tf_scale (smul (Fin 0.5) h) g);
       Some (dict_set key r' r_new))
    (dict_map (fun k _ =>
       kick (smul (Fin 0.5) h) (half_kick lj h z r k) (dlog_joint lj (leap_z lj h z r) k)) pre
     ++ dict_map (fun k _ => half_kick lj h z r k) suf)
  = Some (leap_r lj h z r).
Proof.
  revert pre. induction suf as [|[k x] suf IH]; intros pre Hz; simpl.
  - rewrite !app_nil_r in *. by subst.
  - assert (Hfresh : k ∉ iterkeys pre) by (eapply NoDup_middle_fresh; by rewrite <- Hz).
    assert (Hzk : dict_get k z = Some x) by (rewrite Hz; by apply dict_get_middle).
    destruct (Hcov k x Hzk) as (y & Hrk & Hshape).
    rewrite dict_get_middle by (by rewrite iterkeys_dict_map). simpl.
    rewrite (gradient_at (leap_z lj h z r) pre suf k x)
      by (unfold leap_z; by rewrite iterkeys_dict_map, Hz).
    simpl. rewrite tf_add_scale.
    2:{ rewrite (proj1 (Hlj (leap_z lj h z r) k (kick h x (half_kick lj h z r k)) ltac:(unfold leap_z; by rewrite dict_get_map, Hzk))).
        simpl. unfold dict_total. rewrite Hrk. simpl. congruence. }
    simpl. rewrite dict_set_middle by (by rewrite iterkeys_dict_map).
    specialize (IH (pre ++ [(k, x)])). rewrite length_app in IH. simpl in IH.
    rewrite Nat.add_1_r, !dict_map_app in IH.
    rewrite cons_middle, (assoc (++)). apply IH.
    by rewrite <- (assoc (++)).
Qed.

Lemma leapfrog_closed : leapfrog z r h lj = Some ((leap_z lj h z r), (leap_r lj h z r)).
Proof.
  unfold leapfrog, enumerate. apply bind_Some. exists ((leap_z lj h z r), half_r).
  split; [exact (leapfrog_first_loop [] z eq_refl)|].
  apply bind_Some. exists (leap_r lj h z r).
  split; [exact (leapfrog_second_loop [] z eq_refl)|done].
Qed.
End leapfrog_closed.

(** ** One leapfrog step, key by key *)

Lemma iterkeys_leap_z lj h z r : iterkeys (leap_z lj h z r) = iterkeys z.
Proof. apply iterkeys_dict_map. Qed.

Lemma iterkeys_leap_r lj h z r : iterkeys (leap_r lj h z r) = iterkeys z.
Proof. apply iterkeys_dict_map. Qed.

Lemma dict_get_leap_z lj h z r k x :
  dict_get k z = Some x →
  dict_get k (leap_z lj h z r) = Some (kick h x (half_kick lj h z r k)).
Proof. intros Hk. unfold leap_z. by rewrite dict_get_map, Hk. Qed.

Lemma dict_get_leap_r lj h z r k x :
  dict_get k z = Some x →
  dict_get k (leap_r lj h z r)
  = Some (kick (smul (Fin 0.5) h) (half_kick lj h z r k)
            (dlog_joint lj (leap_z lj h z r) k)).
Proof. intros Hk. unfold leap_r. by rewrite dict_get_map, Hk. Qed.

Lemma dict_total_get (d : State) k x : dict_get k d = Some x → dict_total d k = x.
Proof. unfold dict_total. by intros ->. Qed.

Lemma dict_get_keys {V W} (d : dict V) (d' : dict W) k v :
  iterkeys d' = iterkeys d → dict_get k d = Some v → is_Some (dict_get k d').
Proof.
  intros Hk Hv. apply dict_get_is_Some in Hv. rewrite <- Hk in Hv.
  destruct (dict_get k d') eqn:E; [done|].
  revert Hv E. clear. induction d' as [|[k' w] d' IH]; simpl.
  - by intros ?%elem_of_nil.
  - intros [->|?]%elem_of_cons; [by rewrite decide_True|].
    destruct (decide (k = k')); [done|auto].
Qed.

(** ** States over the latent variables *)

Lemma state_over_covers lv z r :
  state_over lv z → state_over lv r → covers z r.
Proof.
  intros [Hkz Hz] [Hkr Hr] k x Hx.
  destruct (dict_get_keys z r k x) as [y Hy]; [congruence|done|].
  destruct (dict_get_keys z lv k x) as [qz Hqz]; [congruence|done|].
  exists y. split; [done|].
  destruct (Hz _ _ _ Hx Hqz) as [-> _], (Hr _ _ _ Hy Hqz) as [-> _]. done.
Qed.

Lemma state_over_half_kick lv lj h z r k x qz :
  state_over lv z → state_over lv r → oracle_shaped lj →
  dict_get k z = Some x → dict_get k lv = Some qz →
  has_shape (event_shape qz) (half_kick lj h z r k).
Proof.
  intros Hz Hr Hlj Hx Hqz.
  destruct (state_over_covers _ _ _ Hz Hr k x Hx) as (y & Hy & _).
  unfold half_kick. rewrite (dict_total_get _ _ _ Hy).
  apply kick_has_shape; [by eapply Hr|].
  eapply same_dims_has_shape; [by apply Hlj|by eapply Hz].
Qed.

Lemma state_over_leap_z lv lj h z r :
  state_over lv z → state_over lv r → oracle_shaped lj →
  state_over lv (leap_z lj h z r).
Proof.
  intros Hz Hr Hlj. split; [rewrite iterkeys_leap_z; apply Hz|].
  intros k x' qz Hx' Hqz.
  destruct (dict_get_keys lv z k qz) as [x Hx]; [apply Hz|done|].
  rewrite (dict_get_leap_z _ _ _ _ _ _ Hx) in Hx'. injection Hx' as <-.
  apply kick_has_shape; [by eapply Hz|by eapply state_over_half_kick].
Qed.

Lemma state_over_leap_r lv lj h z r :
  state_over lv z → state_over lv r → oracle_shaped lj →
  state_over lv (leap_r lj h z r).
Proof.
  intros Hz Hr Hlj. split; [rewrite iterkeys_leap_r; apply Hz|].
  intros k y' qz Hy' Hqz.
  destruct (dict_get_keys lv z k qz) as [x Hx]; [apply Hz|done|].
  rewrite (dict_get_leap_r _ _ _ _ _ _ Hx) in Hy'. injection Hy' as <-.
  apply kick_has_shape; [by eapply state_over_half_kick|].
  pose proof (state_over_leap_z lv lj h z r Hz Hr Hlj) as Hz'.
  pose proof (dict_get_leap_z lj h z r k x Hx) as Hx'.
  eapply same_dims_has_shape; [by apply Hlj|by eapply Hz'].
Qed.

(** ** The update step in closed form *)

Lemma elem_of_dict_get {V} (d : dict V) k v :
  NoDup (iterkeys d) → (k, v) ∈ d → dict_get k d = Some v.
Proof.
  intros Hnd [i Hi]%list_elem_of_lookup. by eapply dict_get_lookup.
Qed.

Lemma dict_get_elem_of {V} (d : dict V) k v :
  dict_get k d = Some v → (k, v) ∈ d.
Proof.
  induction d as [|[k' v'] d IH]; simpl; [done|].
  destruct (decide (k = k')) as [->|]; [intros [= ->]; left|right; auto].
Qed.

Section update_closed.
Variables (self : HMC) (lj : Oracle) (rng : Draws).
Hypothesis Hwf : wf_hmc self.

Lemma read_row_has_shape z qz :
  (z, qz) ∈ latent_vars self →
  params qz !! read_index self = Some (read_row self qz) ∧
  has_shape (event_shape qz) (read_row self qz).
Proof.
  intros Hin. pose proof (wf_index _ Hwf _ _ Hin) as Ht.
  destruct (lookup_lt_is_Some_2 (params qz) (read_index self)) as [x Hx].
  { unfold read_index. lia. }
  unfold read_row. rewrite Hx. split; [done|]. simpl.
  pose proof (wf_rows _ Hwf _ _ Hin) as Hrows.
  rewrite Forall_lookup in Hrows. by eapply Hrows.
Qed.

Lemma old_sample_over : state_over (latent_vars self) (old_sample_of self).
Proof.
  split; [apply iterkeys_dict_map|]. intros k x qz Hx Hqz.
  unfold old_sample_of in Hx. rewrite dict_get_map, Hqz in Hx.
  injection Hx as <-. by eapply read_row_has_shape, dict_get_elem_of.
Qed.

Lemma normal_sample_has_shape sh eps : has_shape sh (normal_sample sh eps).
Proof.
  split; [done|]. unfold tensor_wf. simpl. by rewrite length_fmap, length_seq.
Qed.

Lemma old_r_sample_over :
  state_over (latent_vars self) (old_r_sample_of self rng).
Proof.
  split; [apply iterkeys_dict_map|]. intros k x qz Hx Hqz.
  unfold old_r_sample_of in Hx. rewrite dict_get_map, Hqz in Hx.
  injection Hx as <-. apply normal_sample_has_shape.
Qed.

Lemma old_sample_loop :
  for_each (iteritems (latent_vars self))
    (fun '(z, qz) d =>
       x ← tf_gather (params qz) (Z.max (t self - 1) 0);
       Some (dict_set z x d))
    [] = Some (old_sample_of self).
Proof.
  apply (for_each_dict_set
           (fun _ qz => tf_gather (params qz) (Z.max (t self - 1) 0))
           (fun _ qz => read_row self qz) (latent_vars self) []).
  - apply Hwf.
  - intros k qz Hin. unfold tf_gather. rewrite decide_True by lia.
    by apply (read_row_has_shape k).
Qed.

Lemma old_r_sample_loop :
  foldl (fun d '(z, qz) =>
           let event_shape := get_event_shape qz in
           dict_set z (normal_sample event_shape (normal_draw rng z)) d)
    [] (iteritems (latent_vars self))
  = old_r_sample_of self rng.
Proof.
  apply (foldl_dict_set
           (fun z qz => normal_sample (event_shape qz) (normal_draw rng z))
           (latent_vars self) []).
  apply Hwf.
Qed.
End update_closed.

(** X1: every pass of the loop of [build_update] integrates from the old
    point: as soon as the loop runs at all, its result is one leapfrog step
    from [(old_sample, old_r_sample)], whatever the number of passes. *)
Lemma simulate_is_one_step n old old_r h lj q :
  simulate (S n) old old_r h lj q = leapfrog old old_r h lj.
Proof.
  revert q. induction n as [|n IH]; intros q.
  - simpl. by destruct (leapfrog old old_r h lj).
  - change (simulate (S (S n)) old old_r h lj q)
      with (new' ← leapfrog old old_r h lj; simulate (S n) old old_r h lj new').
    destruct (leapfrog old old_r h lj) as [p|] eqn:E; [|done].
    change (simulate (S n) old old_r h lj p = Some p). by rewrite IH.
Qed.

Lemma simulate_closed n old old_r h lj p q :
  leapfrog old old_r h lj = Some p →
  simulate n old old_r h lj q = Some (match n with O => q | S _ => p end).
Proof.
  intros Hleap. revert q. induction n as [|n IH]; intros q; simpl; [done|].
  rewrite Hleap. simpl. rewrite IH. by destruct n.
Qed.

Lemma tf_reduce_sum_list_uniform sh xs :
  Forall (fun y => shape y = sh) xs →
  tf_reduce_sum_list xs = Some (sum_scalars (concat (data <$> xs))).
Proof.
  intros Hsh. unfold tf_reduce_sum_list, tf_pack.
  destruct xs as [|x xs]; [done|]. rewrite decide_True; [done|].
  inversion Hsh; subst. eapply Forall_impl; [exact Hsh|]. by intros ? ->.
Qed.

Lemma kinetic_over lv r :
  NoDup (iterkeys lv) →
  (∀ z1 qz1 z2 qz2, (z1, qz1) ∈ lv → (z2, qz2) ∈ lv →
                    event_shape qz1 = event_shape qz2) →
  state_over lv r → kinetic r = Some (kinetic_of r).
Proof.
  intros Hnd Hpack [Hkeys Hr]. unfold kinetic, kinetic_of.
  destruct lv as [|[z0 qz0] lv0] eqn:Elv.
  { destruct r; [done|discriminate]. }
  rewrite <- Elv in *.
  apply (tf_reduce_sum_list_uniform (event_shape qz0)).
  rewrite Forall_fmap. unfold itervalues. rewrite Forall_fmap.
  apply Forall_forall. intros [k x] Hin. simpl.
  assert (Hx : dict_get k r = Some x)
    by (apply elem_of_dict_get; [by rewrite Hkeys|done]).
  destruct (dict_get_keys r lv k x) as [qz Hqz]; [done..|].
  destruct (Hr _ _ _ Hx Hqz) as [-> _].
  apply (Hpack k qz z0 qz0); [by apply dict_get_elem_of|].
  rewrite Elv. left.
Qed.

Lemma tf_cond_list b xs ys :
  match tf_cond b xs ys with CondList l => l | CondTensor x => [x] end
  = if b then xs else ys.
Proof. unfold tf_cond. by destruct (if b then xs else ys) as [|? [|??]]. Qed.

Lemma sample_zip (new old : State) (b : bool) :
  NoDup (iterkeys new) → iterkeys old = iterkeys new →
  dict_of_zip (iterkeys new)
    match tf_cond b (itervalues new) (itervalues old) with
    | CondList l => l
    | CondTensor x => [x]
    end
  = if b then new else old.
Proof.
  intros Hnd Hk. rewrite tf_cond_list.
  destruct b; [by apply dict_of_zip_items|].
  rewrite <- Hk. apply dict_of_zip_items. by rewrite Hk.
Qed.

Lemma for_each_pointwise {A S} (l : list A) (f g : A → S → option S) s :
  (∀ x s, f x s = g x s) → for_each l f s = for_each l g s.
Proof.
  intros Hfg. revert s. induction l as [|x l IH]; intros s; simpl; [done|].
  rewrite Hfg. destruct (g x s); simpl; [apply IH|done].
Qed.

Lemma commit_loop self (sample : State) :
  wf_hmc self → state_over (latent_vars self) sample →
  for_each (iteritems (latent_vars self))
    (fun '(z, qz) d =>
       x ← dict_get z sample;
       qz' ← tf_scatter_update qz (t self) x;
       Some (dict_set z qz' d))
    []
  = Some (dict_map (fun z qz =>
            mkEmpirical (<[Z.to_nat (t self) := dict_total sample z]> (params qz))
              (event_shape qz))
          (latent_vars self)).
Proof.
  intros Hwf Hs.
  etrans; [apply for_each_pointwise
           with (g := fun '(z, qz) d =>
                        x ← (x ← dict_get z sample;
                             tf_scatter_update qz (t self) x);
                        Some (dict_set z x d));
           intros [z qz] d; by destruct (dict_get z sample)|].
  apply (for_each_dict_set
           (fun z qz => x ← dict_get z sample; tf_scatter_update qz (t self) x)
           (fun z qz => mkEmpirical
              (<[Z.to_nat (t self) := dict_total sample z]> (params qz))
              (event_shape qz))
           (latent_vars self) []).
  - apply Hwf.
  - intros k qz Hin.
    pose proof (elem_of_dict_get _ _ _ (wf_keys _ Hwf) Hin) as Hqz.
    destruct (dict_get_keys (latent_vars self) sample k qz) as [x Hx];
      [apply Hs|done|].
    rewrite Hx. simpl. rewrite (dict_total_get _ _ _ Hx).
    unfold tf_scatter_update. rewrite decide_True; [done|].
    split; [by eapply wf_index|]. by eapply Hs.
Qed.

Section build_update_closed.
Variables (self : HMC) (lj : Oracle) (rng : Draws).
Hypothesis Hwf : wf_hmc self.
Hypothesis Hlj : range_len (n_steps self) ≠ O → oracle_shaped lj.

Lemma proposal_over :
  state_over (latent_vars self) (proposal_of self lj rng).1 ∧
  state_over (latent_vars self) (proposal_of self lj rng).2.
Proof.
  pose proof (old_sample_over self Hwf) as Hz.
  pose proof (old_r_sample_over self rng) as Hr.
  unfold proposal_of. destruct (range_len (n_steps self)); simpl; [done|].
  split; [apply state_over_leap_z|apply state_over_leap_r]; auto.
Qed.

Lemma proposal_closed :
  simulate (range_len (n_steps self)) (old_sample_of self)
    (old_r_sample_of self rng) (step_size self) lj
    (old_sample_of self, old_r_sample_of self rng)
  = Some (proposal_of self lj rng).
Proof.
  unfold proposal_of. destruct (range_len (n_steps self)) as [|n]; [done|].
  rewrite (simulate_closed (S n) _ _ _ _
             (leap_z lj (step_size self) (old_sample_of self)
                (old_r_sample_of self rng),
              leap_r lj (step_size self) (old_sample_of self)
                (old_r_sample_of self rng))); [done|].
  apply leapfrog_closed; [| |auto].
  - unfold old_sample_of. rewrite iterkeys_dict_map. apply Hwf.
  - eapply state_over_covers;
      [by apply old_sample_over|apply old_r_sample_over].
Qed.

Lemma build_update_closed :
  build_update self lj rng = Some (update_of self lj rng).
Proof.
  destruct proposal_over as [Hnew Hnew_r].
  pose proof (old_sample_over self Hwf) as Hold.
  unfold build_update.
  apply bind_Some. exists (old_sample_of self).
  split; [by apply old_sample_loop|]. cbv zeta.
  pose proof (old_r_sample_loop self rng Hwf) as Hr. cbv zeta in Hr.
  rewrite Hr. clear Hr.
  apply bind_Some. exists (proposal_of self lj rng).
  split; [apply proposal_closed|].
  destruct (proposal_of self lj rng) as [new new_r] eqn:Ep. simpl in Hnew, Hnew_r.
  apply bind_Some. exists (kinetic_of (old_r_sample_of self rng)). split.
  { eapply kinetic_over; [apply Hwf..|apply old_r_sample_over]. }
  apply bind_Some. exists (kinetic_of new_r). split.
  { eapply kinetic_over; [apply Hwf..|done]. }
  assert (Hratio : ratio_of self lj rng
    = ssub (sadd (ssub (kinetic_of (old_r_sample_of self rng)) (kinetic_of new_r))
              (log_joint lj new)) (log_joint lj (old_sample_of self)))
    by (unfold ratio_of; by rewrite Ep).
  rewrite <- Hratio. fold (accept_of self lj rng).
  assert (Hsample : dict_of_zip (iterkeys new)
            match tf_cond (accept_of self lj rng) (itervalues new)
                    (itervalues (old_sample_of self)) with
            | CondList l => l
            | CondTensor x => [x]
            end = sample_of self lj rng).
  { unfold sample_of. rewrite Ep. simpl. apply sample_zip.
    - rewrite (proj1 Hnew). apply Hwf.
    - by rewrite (proj1 Hnew), (proj1 Hold). }
  rewrite Hsample.
  apply bind_Some. exists (commit_of self lj rng). split.
  { apply commit_loop; [done|]. unfold sample_of. rewrite Ep. simpl.
    by destruct (accept_of self lj rng). }
  unfold update_of. by rewrite Ep.
Qed.
End build_update_closed.

(** ** Reversing a leapfrog step *)

Lemma phase_ok_covers z r : phase_ok z r → covers z r.
Proof.
  intros (_ & Hk & Hd & _) k x Hx.
  destruct (dict_get_keys z r k x) as [y Hy]; [done..|].
  exists y. split; [done|]. by eapply Hd.
Qed.

Lemma same_dims_kick c x g : same_dims g x → same_dims (kick c x g) x.
Proof.
  intros [Hs Hl]. split; [done|]. simpl.
  rewrite length_zip_with, length_fmap. lia.
Qed.

Lemma same_dims_trans a b c : same_dims a b → same_dims b c → same_dims a c.
Proof. intros [? ?] [? ?]. split; congruence. Qed.

Lemma same_dims_sym a b : same_dims a b → same_dims b a.
Proof. intros [? ?]. split; congruence. Qed.

Lemma smul_fin a b : smul (Fin a) (Fin b) = Fin (a * b).
Proof. done. Qed.

Section reverse.
Variables (lj : Oracle) (h : R) (z r : State).
Hypothesis Hshape : oracle_shaped lj.
Hypothesis Hfin : oracle_fin lj.
Hypothesis Hok : phase_ok z r.

Let z' : State := leap_z lj (Fin h) z r.
Let r' : State := leap_r lj (Fin h) z r.

(** Facts about one key of the start point and of the point reached. *)
Lemma step_key k x :
  dict_get k z = Some x →
  ∃ y, dict_get k r = Some y ∧ same_dims y x ∧ tensor_fin x ∧ tensor_fin y ∧
       let hk := kick (Fin (0.5 * h)) y (dlog_joint lj z k) in
       half_kick lj (Fin h) z r k = hk ∧
       same_dims hk x ∧ tensor_fin hk ∧
       dict_get k z' = Some (kick (Fin h) x hk) ∧
       dict_get k r' = Some (kick (Fin (0.5 * h)) hk (dlog_joint lj z' k)).
Proof.
  intros Hx. destruct Hok as (Hnd & Hk & Hd & Hfz & Hfr).
  destruct (dict_get_keys z r k x) as [y Hy]; [done..|].
  exists y. pose proof (Hd _ _ _ Hx Hy) as Hyx.
  pose proof (Hfz _ _ Hx) as Hfx. pose proof (Hfr _ _ Hy) as Hfy.
  do 4 (split; [done|]). cbv zeta. split_and!.
  - unfold half_kick. by rewrite (dict_total_get _ _ _ Hy), smul_fin.
  - eapply same_dims_trans; [|exact Hyx]. apply same_dims_kick.
    eapply same_dims_trans; [by apply Hshape|by apply same_dims_sym].
  - apply kick_fin; [done|by apply Hfin].
  - unfold z'. rewrite (dict_get_leap_z _ _ _ _ _ _ Hx).
    unfold half_kick. by rewrite (dict_total_get _ _ _ Hy), smul_fin.
  - unfold r'. rewrite (dict_get_leap_r _ _ _ _ _ _ Hx).
    unfold half_kick. by rewrite (dict_total_get _ _ _ Hy), !smul_fin.
Qed.

Lemma state_fin_leap_z : state_fin z'.
Proof.
  intros k x1 Hx1.
  destruct (dict_get_keys z' z k x1) as [x Hx];
    [unfold z'; by rewrite iterkeys_leap_z|done|].
  destruct (step_key k x Hx) as (y & _ & _ & Hfx & _ & _ & _ & Hfk & Hz' & _).
  rewrite Hz' in Hx1. injection Hx1 as <-. by apply kick_fin.
Qed.

Lemma phase_ok_leap : phase_ok z' r'.
Proof.
  pose proof state_fin_leap_z as Hfz'.
  destruct Hok as (Hnd & Hk & Hd & Hfz & Hfr).
  split; [unfold z'; by rewrite iterkeys_leap_z|].
  split; [unfold z', r'; by rewrite iterkeys_leap_z, iterkeys_leap_r|].
  split; [|split; [done|]].
  - intros k x1 y1 Hx1 Hy1.
    destruct (dict_get_keys z' z k x1) as [x Hx];
      [unfold z'; by rewrite iterkeys_leap_z|done|].
    destruct (step_key k x Hx)
      as (y & _ & _ & _ & _ & _ & Hdk & _ & Hz' & Hr').
    pose proof (Hshape z' k _ Hz') as Hg.
    rewrite Hz' in Hx1. rewrite Hr' in Hy1.
    injection Hx1 as <-. injection Hy1 as <-.
    assert (Hxk : same_dims (kick (Fin h) x
                    (kick (Fin (0.5 * h)) y (dlog_joint lj z k))) x)
      by (by apply same_dims_kick).
    eapply same_dims_trans; [|by apply same_dims_sym].
    eapply same_dims_trans; [|exact Hdk]. apply same_dims_kick.
    eapply same_dims_trans; [exact Hg|].
    eapply same_dims_trans; [exact Hxk|by apply same_dims_sym].
  - intros k y1 Hy1.
    destruct (dict_get_keys r' z k y1) as [x Hx];
      [unfold r'; by rewrite iterkeys_leap_r|done|].
    destruct (step_key k x Hx)
      as (y & _ & _ & _ & _ & _ & _ & Hfk & _ & Hr').
    rewrite Hr' in Hy1. injection Hy1 as <-.
    apply kick_fin; [done|by apply Hfin].
Qed.
End reverse.

Lemma dict_get_of_key {V} (d : dict V) k :
  k ∈ iterkeys d → ∃ v, dict_get k d = Some v.
Proof.
  induction d as [|[k' v] d IH]; simpl.
  - by intros ?%elem_of_nil.
  - intros [->|Hk]%elem_of_cons; [rewrite decide_True by done; eauto|].
    destruct (decide (k = k')); eauto.
Qed.

Lemma leapfrog_reverse lj h z r :
  oracle_shaped lj → oracle_fin lj → phase_ok z r →
  leapfrog (leap_z lj (Fin h) z r) (leap_r lj (Fin h) z r) (Fin (- h)) lj
  = Some (z, r).
Proof.
  intros Hs Hf Hok. pose proof (phase_ok_leap lj h z r Hs Hf Hok) as Hok'.
  rewrite leapfrog_closed; [|apply Hok'|by apply phase_ok_covers|done].
  set (z' := leap_z lj (Fin h) z r) in *.
  set (r' := leap_r lj (Fin h) z r) in *.
  pose proof Hok as (Hnd & Hkeys & _ & _ & Hfr).
  assert (Hhalf : ∀ k x, dict_get k z = Some x →
            half_kick lj (Fin (- h)) z' r' k = half_kick lj (Fin h) z r k
            ∧ kick (Fin (- h)) (kick (Fin h) x (half_kick lj (Fin h) z r k))
                (half_kick lj (Fin h) z r k) = x).
  { intros k x Hx.
    destruct (step_key lj h z r Hs Hf Hok k x Hx)
      as (y & Hy & Hyx & Hfx & Hfy & Hhk & Hdk & Hfk & Hz' & Hr').
    fold z' in Hz', Hr'. fold r' in Hr'. cbv zeta in *.
    rewrite Hhk. pose proof (Hs z' k _ Hz') as Hg.
    assert (Hxk : same_dims (kick (Fin h) x
                    (kick (Fin (0.5 * h)) y (dlog_joint lj z k))) x)
      by (by apply same_dims_kick).
    split.
    - unfold half_kick at 1. rewrite (dict_total_get _ _ _ Hr'), smul_fin.
      apply kick_undo; [lra|done|apply Hf; by eapply state_fin_leap_z|].
      destruct Hdk as [_ ->], Hg as [_ ->], Hxk as [_ ->]. done.
    - apply kick_undo; [lra|done..|]. by destruct Hdk as [_ ->]. }
  assert (Hz : leap_z lj (Fin (- h)) z' r' = z).
  { symmetry. apply dict_ext; [done|unfold z'; by rewrite !iterkeys_leap_z|].
    intros k Hk. destruct (dict_get_of_key z k Hk) as [x Hx].
    destruct (step_key lj h z r Hs Hf Hok k x Hx)
      as (y & Hy & _ & _ & _ & Hhk & _ & _ & Hz' & _).
    fold z' in Hz'. cbv zeta in *.
    rewrite Hx, (dict_get_leap_z _ _ _ _ _ _ Hz'). f_equal.
    destruct (Hhalf k x Hx) as [-> Hback]. by rewrite <- Hhk, Hback. }
  f_equal. f_equal; [done|].
  symmetry. apply dict_ext;
    [by rewrite Hkeys|unfold z'; by rewrite iterkeys_leap_r, iterkeys_leap_z|].
  intros k Hk. rewrite Hkeys in Hk. destruct (dict_get_of_key z k Hk) as [x Hx].
  destruct (step_key lj h z r Hs Hf Hok k x Hx)
    as (y & Hy & Hyx & Hfx & Hfy & Hhk & Hdk & Hfk & Hz' & Hr').
  fold z' in Hz'. cbv zeta in *.
  rewrite Hy, (dict_get_leap_r _ _ _ _ _ _ Hz'), Hz. f_equal.
  destruct (Hhalf k x Hx) as [-> _]. rewrite Hhk, smul_fin.
  symmetry. apply kick_undo; [lra|done|apply Hf; by destruct Hok as (_ & _ & _ & ? & _)|].
  destruct (Hs z k x Hx) as [_ ->]. by destruct Hyx as [_ ->].
Qed.

Lemma leapfrog_iter_snoc n z r h lj :
  leapfrog_iter (S n) z r h lj
  = '(z', r') ← leapfrog_iter n z r h lj; leapfrog z' r' h lj.
Proof.
  revert z r. induction n as [|n IH]; intros z r.
  - simpl. by destruct (leapfrog z r h lj) as [[??]|].
  - change (leapfrog_iter (S (S n)) z r h lj)
      with ('(z', r') ← leapfrog z r h lj; leapfrog_iter (S n) z' r' h lj).
    change (leapfrog_iter (S n) z r h lj)
      with ('(z', r') ← leapfrog z r h lj; leapfrog_iter n z' r' h lj).
    destruct (leapfrog z r h lj) as [[z1 r1]|]; [|done]. apply IH.
Qed.

Lemma leapfrog_round_trip lj h n z r :
  oracle_shaped lj → oracle_fin lj → phase_ok z r →
  ∃ z' r', leapfrog_iter n z r (Fin h) lj = Some (z', r') ∧ phase_ok z' r' ∧
           leapfrog_iter n z' r' (Fin (- h)) lj = Some (z, r).
Proof.
  intros Hs Hf. revert z r. induction n as [|n IH]; intros z r Hok.
  - by exists z, r.
  - pose proof (phase_ok_leap lj h z r Hs Hf Hok) as Hok1.
    destruct (IH _ _ Hok1) as (z' & r' & Hfwd & Hok' & Hback).
    exists z', r'. split_and!; [|done|].
    + simpl. rewrite leapfrog_closed;
        [done|apply Hok|by apply phase_ok_covers|done].
    + rewrite leapfrog_iter_snoc, Hback. simpl.
      by apply leapfrog_reverse.
Qed.

(** ** What the update step commits *)

Section committed.
Variables (self : HMC) (lj : Oracle) (rng : Draws).
Hypothesis Hwf : wf_hmc self.
Hypothesis Hlj : range_len (n_steps self) ≠ O → oracle_shaped lj.



End committed.

(** ** Kinetic energy *)


(** ** The example configurations are well formed *)

Lemma gauss_shaped : oracle_shaped gauss.
Proof.
  intros z k x Hx. simpl. rewrite (dict_total_get _ _ _ Hx).
  split; simpl; [done|apply length_fmap].
Qed.

Lemma one_var_wf : wf_hmc one_var.
Proof.
  split; simpl.
  - apply NoDup_singleton.
  - intros z qz [= -> ->]%list_elem_of_singleton. simpl.
    repeat constructor.
  - intros z qz [= -> ->]%list_elem_of_singleton. simpl. lia.
  - by intros z1 qz1 z2 qz2 [= -> ->]%list_elem_of_singleton
                             [= -> ->]%list_elem_of_singleton.
Qed.



(** The update needs one event shape for all variables: with a scalar and
    a vector variable the list of momenta cannot be packed for
    [tf.reduce_sum], and the update fails. *)
Lemma mixed_shapes_fail : build_update mixed gauss still = None.
Proof. vm_compute. reflexivity. Qed.



Lemma gauss_fin : oracle_fin gauss.
Proof.
  intros z k Hz. simpl. unfold dict_total.
  destruct (dict_get k z) as [x|] eqn:Hx; simpl; [|constructor].
  specialize (Hz k x Hx). unfold tensor_fin in *. simpl.
  rewrite Forall_fmap. eapply Forall_impl; [exact Hz|].
  by intros [] ?.
Qed.

Lemma start_ok : phase_ok start_z start_r.
Proof.
  split_and!.
  - apply NoDup_cons. split; [by intros ?%list_elem_of_singleton|].
    apply NoDup_singleton.
  - done.
  - intros k x y Hx Hy. simpl in *.
    repeat case_decide; simplify_eq; done.
  - intros k x Hx. simpl in *.
    repeat case_decide; simplify_eq; repeat constructor.
  - intros k x Hx. simpl in *.
    repeat case_decide; simplify_eq; repeat constructor.
Qed.

(** ** A run of the update step *)

Ltac eval_tensors :=
  unfold kick, tensor_sum, tf_scale, tf_square, dict_total, scalar_tensor,
    vec2, normal_sample;
  simpl; unfold sum_scalars, ssub, sadd, smul, sneg; simpl.


(** * The claims *)

Lemma half_of_step h : smul (Fin 0.5) h = half_of h.
Proof.
  unfold half_of, smul. destruct h; try done.
  - f_equal. lra.
  - by rewrite !inf_signed_pos by lra.
  - by rewrite !inf_signed_neg by lra.
Qed.



(** C1: with [n_steps = 2] the proposal of [build_update] is the point one
    leapfrog step away from [(old_sample, old_r_sample)], not the point two
    steps away: every pass of the loop integrates from the old point
    again.  For a standard normal target from [z = 1], [r = 0] with step
    size 1, the update proposes [(0.5, -0.75)], and the twofold iterate of
    the leapfrog step is [(-0.5, -0.75)]. *)
Theorem build_update_repeats_first_step :
  ∃ u, build_update one_var gauss still = Some u ∧
    old_sample u = [(0%nat, scalar_tensor 1)] ∧
    old_r_sample u = [(0%nat, scalar_tensor 0)] ∧
    new_sample u = [(0%nat, scalar_tensor 0.5)] ∧
    new_r_sample u = [(0%nat, scalar_tensor (-0.75))] ∧
    leapfrog_iter 1 (old_sample u) (old_r_sample u) (step_size one_var) gauss
    = Some (new_sample u, new_r_sample u) ∧
    leapfrog_iter (range_len (n_steps one_var)) (old_sample u)
      (old_r_sample u) (step_size one_var) gauss
    = Some ([(0%nat, scalar_tensor (-0.5))], [(0%nat, scalar_tensor (-0.75))]) ∧
    new_sample u ≠ [(0%nat, scalar_tensor (-0.5))].
Proof.
  exists (update_of one_var gauss still).
  split; [apply build_update_closed; [apply one_var_wf|intros; apply gauss_shaped]|].
  assert (Hnew : new_sample (update_of one_var gauss still)
                 = [(0%nat, scalar_tensor 0.5)]).
  { simpl. unfold leap_z, half_kick. simpl. eval_tensors.
    repeat f_equal. lra. }
  assert (Hnew_r : new_r_sample (update_of one_var gauss still)
                   = [(0%nat, scalar_tensor (-0.75))]).
  { simpl. unfold leap_r, leap_z, half_kick. simpl. eval_tensors.
    repeat f_equal. lra. }
  rewrite Hnew, Hnew_r. split_and!; try done.
  - simpl. unfold leapfrog. simpl. eval_tensors. repeat f_equal; lra.
  - simpl. unfold leapfrog. simpl. eval_tensors. repeat f_equal; lra.
  - unfold scalar_tensor. intros [= H]. lra.
Qed.





(** C4: one leapfrog sub-step with step size [h] takes [(z, r)] to
    [(z', r')] over the same variables where, for every variable,
    [r_half = r + (h/2) * grad(z)] with the gradient taken at the input
    position, [z' = z + h * r_half], and
    [r' = r_half + (h/2) * grad(z')] with the gradient taken at the new
    position; each gradient is that of the whole state, queried at one
    point for all variables. *)
Theorem leapfrog_step_formula lj z r h :
  NoDup (iterkeys z) → covers z r → oracle_shaped lj →
  ∃ z' r', leapfrog z r h lj = Some (z', r') ∧
    iterkeys z' = iterkeys z ∧ iterkeys r' = iterkeys z ∧
    ∀ k x y, dict_get k z = Some x → dict_get k r = Some y →
      let r_half := kick (half_of h) y (dlog_joint lj z k) in
      dict_get k z' = Some (kick h x r_half) ∧
      dict_get k r' = Some (kick (half_of h) r_half (dlog_joint lj z' k)).
Proof.
  intros Hnd Hcov Hlj. exists (leap_z lj h z r), (leap_r lj h z r).
  split; [by apply leapfrog_closed|].
  split; [apply iterkeys_leap_z|]. split; [apply iterkeys_leap_r|].
  intros k x y Hx Hy. cbv zeta. rewrite <- half_of_step.
  rewrite (dict_get_leap_z _ _ _ _ _ _ Hx), (dict_get_leap_r _ _ _ _ _ _ Hx).
  unfold half_kick. by rewrite (dict_total_get _ _ _ Hy).
Qed.

Lemma leapfrog_step_formula_witness :
  ∃ z' r', leapfrog start_z start_r (Fin 0.25) gauss = Some (z', r') ∧
    iterkeys z' = iterkeys start_z ∧ iterkeys r' = iterkeys start_z ∧
    ∀ k x y, dict_get k start_z = Some x → dict_get k start_r = Some y →
      let r_half := kick (half_of (Fin 0.25)) y (dlog_joint gauss start_z k) in
      dict_get k z' = Some (kick (Fin 0.25) x r_half) ∧
      dict_get k r'
      = Some (kick (half_of (Fin 0.25)) r_half (dlog_joint gauss z' k)).
Proof.
  apply (leapfrog_step_formula gauss start_z start_r (Fin 0.25)).
  - apply start_ok.
  - apply phase_ok_covers, start_ok.
  - apply gauss_shaped.
Defined.







(** C8: leapfrog round trip.  In exact arithmetic on real numbers, from any
    start point, [n] leapfrog steps of size [h] followed, from the point
    reached, by [n] steps of size [- h] return exactly the start point. *)
Theorem leapfrog_reversible lj h n z0 r0 :
  oracle_shaped lj → oracle_fin lj → phase_ok z0 r0 →
  ∃ z r, leapfrog_iter n z0 r0 (Fin h) lj = Some (z, r) ∧
         leapfrog_iter n z r (Fin (- h)) lj = Some (z0, r0).
Proof.
  intros Hs Hf Hok.
  destruct (leapfrog_round_trip lj h n z0 r0 Hs Hf Hok)
    as (z & r & Hfwd & _ & Hback).
  by exists z, r.
Qed.

Lemma leapfrog_reversible_witness :
  ∃ z r, leapfrog_iter 3 start_z start_r (Fin 0.25) gauss = Some (z, r) ∧
         leapfrog_iter 3 z r (Fin (Ropp 0.25)) gauss = Some (start_z, start_r).
Proof.
  apply (leapfrog_reversible gauss 0.25 3 start_z start_r).
  - apply gauss_shaped.
  - apply gauss_fin.
  - apply start_ok.
Defined.





(** * Further properties *)

(** ** Loops *)

Lemma for_each_Some_elem {A S} (l : list A) (f : A → S → option S) s s' x :
  for_each l f s = Some s' → x ∈ l → ∃ s1 s2, f x s1 = Some s2.
Proof.
  revert s. induction l as [|a l IH]; intros s Hrun Hx; simpl in Hrun.
  - by apply elem_of_nil in Hx.
  - apply bind_Some in Hrun as (s1 & Ha & Hrun).
    apply elem_of_cons in Hx as [->|Hx]; [by exists s, s1|by eapply IH].
Qed.

Lemma for_each_None_elem {A S} (l : list A) (f : A → S → option S) s :
  for_each l f s = None → ∃ x s1, x ∈ l ∧ f x s1 = None.
Proof.
  revert s. induction l as [|a l IH]; intros s Hrun; simpl in Hrun; [done|].
  destruct (f a s) as [s1|] eqn:Ha; simpl in Hrun.
  - destruct (IH _ Hrun) as (x & s2 & Hx & Hf). exists x, s2.
    split; [by right|done].
  - exists a, s. split; [left|done].
Qed.

Lemma for_each_ext_elem {A S} (l : list A) (f g : A → S → option S) s :
  (∀ x s, x ∈ l → f x s = g x s) → for_each l f s = for_each l g s.
Proof.
  revert s. induction l as [|a l IH]; intros s Hfg; simpl; [done|].
  rewrite (Hfg a s) by left. destruct (g a s); simpl; [|done].
  apply IH. intros. apply Hfg. by right.
Qed.

Lemma elem_of_enumerate_from {A} (l : list A) n i x :
  (i, x) ∈ enumerate_from n l → x ∈ l.
Proof.
  revert n. induction l as [|a l IH]; intros n; simpl.
  - by intros ?%elem_of_nil.
  - intros [[= -> ->]|Hin]%elem_of_cons; [left|right; by eapply IH].
Qed.

Lemma enumerate_from_elem_of {A} (l : list A) n x :
  x ∈ l → ∃ i, (i, x) ∈ enumerate_from n l.
Proof.
  revert n. induction l as [|a l IH]; intros n; simpl.
  - by intros ?%elem_of_nil.
  - intros [->|Hin]%elem_of_cons; [exists n; left|].
    destruct (IH (S n) Hin) as [i Hi]. exists i. by right.
Qed.

(** ** [leapfrog]: keys of the momentum *)

(** X2: [leapfrog] reads [r_old[key]] for every key of [z_old]: when the
    momentum has no entry for a key of the position, the call raises. *)
Theorem leapfrog_missing_momentum z r h lj k :
  k ∈ iterkeys z → dict_get k r = None → leapfrog z r h lj = None.
Proof.
  intros Hk Hr. destruct (leapfrog z r h lj) as [p|] eqn:E; [|done].
  exfalso. unfold leapfrog in E. apply bind_Some in E as ([z1 r1] & E1 & _).
  destruct (enumerate_from_elem_of (iterkeys z) 0 k Hk) as [i Hi].
  destruct (for_each_Some_elem _ _ _ _ (i, k) E1 Hi) as ([zn rn] & s2 & Hbody).
  simpl in Hbody. rewrite Hr in Hbody. by destruct (dict_get k z).
Qed.

Lemma leapfrog_missing_momentum_witness :
  leapfrog start_z [(0%nat, vec2 1 1)] (Fin 0.25) gauss = None.
Proof.
  apply (leapfrog_missing_momentum start_z [(0%nat, vec2 1 1)] (Fin 0.25)
           gauss 1%nat).
  - right. left.
  - reflexivity.
Defined.

(** X3: [leapfrog] uses of [r_old] only the entries of the keys of
    [z_old]: momenta that agree on these keys give the same result, whatever
    else they hold and in whatever order. *)
Theorem leapfrog_reads_momentum_of_position_keys z r r' h lj :
  (∀ k, k ∈ iterkeys z → dict_get k r = dict_get k r') →
  leapfrog z r h lj = leapfrog z r' h lj.
Proof.
  intros Hr. unfold leapfrog.
  match goal with
  | |- ?a ≫= ?k = ?b ≫= _ => assert (Hab : a = b); [|by rewrite Hab]
  end.
  apply for_each_ext_elem. intros [i key] [z_new r_new] Hin.
  by rewrite (Hr key (elem_of_enumerate_from _ _ _ _ Hin)).
Qed.

Lemma leapfrog_reads_momentum_of_position_keys_witness :
  leapfrog start_z start_r (Fin 0.25) gauss
  = leapfrog start_z ((7%nat, vec2 9 9) :: reverse start_r) (Fin 0.25) gauss.
Proof.
  apply (leapfrog_reads_momentum_of_position_keys start_z start_r
           ((7%nat, vec2 9 9) :: reverse start_r) (Fin 0.25) gauss).
  intros k Hk. unfold start_z in Hk. simpl in Hk.
  apply elem_of_cons in Hk as [->|Hk]; [reflexivity|].
  apply elem_of_cons in Hk as [->|Hk]; [reflexivity|].
  by apply elem_of_nil in Hk.
Defined.

(** ** [leapfrog]: degenerate and reversed steps *)

Ltac elementwise x g :=
  destruct x as [? dx], g as [? dg];
  unfold kick, tensor_sum, tf_scale, tensor_fin; simpl;
  let Hx := fresh "Hx" in
  intros Hx; intros Hg Hlen; f_equal; revert dg Hg Hlen;
  induction Hx as [|a l Ha _ IH]; intros [|b l'] Hg Hlen; simpl in *;
  try done;
  inversion_clear Hg as [|?? Hb Hl']; f_equal; [|apply IH; [done|lia]];
  destruct (is_fin_inv _ Ha) as [? ->], (is_fin_inv _ Hb) as [? ->];
  unfold sadd, smul; f_equal.

Lemma kick_zero c x g :
  c = 0%R → tensor_fin x → tensor_fin g →
  length (data x) = length (data g) → kick (Fin c) x g = x.
Proof. intros ->. elementwise x g. lra. Qed.

Lemma kick_neg_undo c y g :
  tensor_fin y → tensor_fin g → length (data y) = length (data g) →
  kick (Fin c) (tf_scale (Fin (-1)) (kick (Fin c) y g)) g
  = tf_scale (Fin (-1)) y.
Proof. elementwise y g. lra. Qed.

Lemma kick_back c x y :
  tensor_fin x → tensor_fin y → length (data x) = length (data y) →
  kick (Fin c) (kick (Fin c) x y) (tf_scale (Fin (-1)) y) = x.
Proof. elementwise x y. lra. Qed.

(** X4: a leapfrog step of size 0 is the identity on phase-space points of
    real numbers. *)
Theorem leapfrog_zero_step lj z r :
  oracle_shaped lj → oracle_fin lj → phase_ok z r →
  leapfrog z r (Fin 0) lj = Some (z, r).
Proof.
  intros Hs Hf Hok. pose proof Hok as (Hnd & Hkeys & _ & _ & Hfr).
  rewrite leapfrog_closed; [|done|by apply phase_ok_covers|done].
  assert (Hkey : ∀ k x, dict_get k z = Some x →
            ∃ y, dict_get k r = Some y ∧
                 dict_get k (leap_z lj (Fin 0) z r) = Some x ∧
                 dict_get k (leap_r lj (Fin 0) z r) = Some y).
  { intros k x Hx.
    destruct (step_key lj 0 z r Hs Hf Hok k x Hx)
      as (y & Hy & Hyx & Hfx & Hfy & Hhk & Hdk & Hfk & Hz' & Hr').
    cbv zeta in *. exists y. split; [done|].
    assert (Hk : kick (Fin (0.5 * 0)) y (dlog_joint lj z k) = y).
    { apply kick_zero; [lra|done|by apply Hf; destruct Hok as (_&_&_&?&_)|].
      destruct (Hs z k x Hx) as [_ ->]. by destruct Hyx as [_ ->]. }
    rewrite Hk in Hz', Hr'.
    assert (Hz0 : kick (Fin 0) x y = x).
    { apply kick_zero; [done..|]. by destruct Hyx as [_ ->]. }
    rewrite Hz0 in Hz'. split; [done|]. rewrite Hr'. f_equal.
    apply kick_zero; [lra|done| |].
    - apply Hf. by eapply state_fin_leap_z.
    - destruct (Hs _ k x Hz') as [_ ->]. by destruct Hyx as [_ ->]. }
  f_equal. f_equal; symmetry.
  - apply dict_ext; [done|by rewrite iterkeys_leap_z|].
    intros k Hk. destruct (dict_get_of_key z k Hk) as [x Hx].
    destruct (Hkey k x Hx) as (y & _ & -> & _). done.
  - apply dict_ext; [by rewrite Hkeys|by rewrite iterkeys_leap_r|].
    intros k Hk. rewrite Hkeys in Hk.
    destruct (dict_get_of_key z k Hk) as [x Hx].
    destruct (Hkey k x Hx) as (y & -> & _ & ->). done.
Qed.

Lemma leapfrog_zero_step_witness :
  leapfrog start_z start_r (Fin 0) gauss = Some (start_z, start_r).
Proof.
  apply (leapfrog_zero_step gauss start_z start_r).
  - apply gauss_shaped.
  - apply gauss_fin.
  - apply start_ok.
Defined.

Lemma dict_get_state_neg r k :
  dict_get k (state_neg r) = tf_scale (Fin (-1)) <$> dict_get k r.
Proof. unfold state_neg. by rewrite dict_get_map. Qed.

(** X5: time reversal.  In exact arithmetic, a leapfrog step from the point
    reached, with the momentum reversed and the same step size, returns to
    the start point with its momentum reversed. *)
Theorem leapfrog_momentum_flip lj h z r :
  oracle_shaped lj → oracle_fin lj → phase_ok z r →
  ∃ z' r', leapfrog z r (Fin h) lj = Some (z', r') ∧
           leapfrog z' (state_neg r') (Fin h) lj = Some (z, state_neg r).
Proof.
  intros Hs Hf Hok. pose proof (phase_ok_leap lj h z r Hs Hf Hok) as Hok'.
  exists (leap_z lj (Fin h) z r), (leap_r lj (Fin h) z r).
  split; [apply leapfrog_closed; [apply Hok|by apply phase_ok_covers|done]|].
  set (z' := leap_z lj (Fin h) z r) in *.
  set (r' := leap_r lj (Fin h) z r) in *.
  pose proof Hok as (Hnd & Hkeys & _ & _ & Hfr).
  rewrite leapfrog_closed; [|apply Hok'| |done].
  2:{ intros k x' Hx'.
      destruct (phase_ok_covers _ _ Hok' k x' Hx') as (y' & Hy' & Hsh).
      exists (tf_scale (Fin (-1)) y'). by rewrite dict_get_state_neg, Hy'. }
  assert (Hkey : ∀ k x, dict_get k z = Some x →
            ∃ y, dict_get k r = Some y ∧ tensor_fin y ∧
                 length (data y) = length (data (dlog_joint lj z k)) ∧
                 half_kick lj (Fin h) z' (state_neg r') k
                 = tf_scale (Fin (-1))
                     (kick (Fin (0.5 * h)) y (dlog_joint lj z k)) ∧
                 dict_get k (leap_z lj (Fin h) z' (state_neg r')) = Some x).
  { intros k x Hx.
    destruct (step_key lj h z r Hs Hf Hok k x Hx)
      as (y & Hy & Hyx & Hfx & Hfy & Hhk & Hdk & Hfk & Hz' & Hr').
    fold z' in Hz', Hr'. fold r' in Hr'. cbv zeta in *.
    exists y. split; [done|]. split; [done|].
    split; [destruct (Hs z k x Hx) as [_ ->]; by destruct Hyx as [_ ->]|].
    pose proof (Hs z' k _ Hz') as Hg.
    assert (Hxk : same_dims (kick (Fin h) x
                    (kick (Fin (0.5 * h)) y (dlog_joint lj z k))) x)
      by (by apply same_dims_kick).
    assert (Hhalf : half_kick lj (Fin h) z' (state_neg r') k
                    = tf_scale (Fin (-1))
                        (kick (Fin (0.5 * h)) y (dlog_joint lj z k))).
    { unfold half_kick, dict_total.
      rewrite dict_get_state_neg, Hr', smul_fin. simpl.
      apply kick_neg_undo; [done|apply Hf; by eapply state_fin_leap_z|].
      destruct Hdk as [_ ->], Hg as [_ ->], Hxk as [_ ->]. done. }
    split; [done|].
    rewrite (dict_get_leap_z _ _ _ _ _ _ Hz'), Hhalf. f_equal.
    apply kick_back; [done..|]. by destruct Hdk as [_ ->]. }
  assert (Hz : leap_z lj (Fin h) z' (state_neg r') = z).
  { symmetry. apply dict_ext; [done|unfold z'; by rewrite !iterkeys_leap_z|].
    intros k Hk. destruct (dict_get_of_key z k Hk) as [x Hx].
    destruct (Hkey k x Hx) as (y & _ & _ & _ & _ & ->). done. }
  f_equal. f_equal; [done|]. symmetry.
  assert (Hkn : iterkeys (state_neg r) = iterkeys z)
    by (unfold state_neg; by rewrite iterkeys_dict_map).
  apply dict_ext;
    [by rewrite Hkn|unfold z'; by rewrite iterkeys_leap_r, iterkeys_leap_z|].
  intros k Hk. rewrite Hkn in Hk. destruct (dict_get_of_key z k Hk) as [x Hx].
  destruct (Hkey k x Hx) as (y & Hy & Hfy & Hlen & Hhalf & _).
  destruct (step_key lj h z r Hs Hf Hok k x Hx)
    as (y0 & Hy0 & _ & _ & _ & _ & _ & _ & Hz' & _).
  fold z' in Hz'.
  rewrite dict_get_state_neg, Hy, (dict_get_leap_r _ _ _ _ _ _ Hz'), Hz.
  rewrite Hhalf, smul_fin. simpl. f_equal. symmetry.
  apply kick_neg_undo; [done|apply Hf; by destruct Hok as (_&_&_&?&_)|done].
Qed.

Lemma leapfrog_momentum_flip_witness :
  ∃ z' r', leapfrog start_z start_r (Fin 0.25) gauss = Some (z', r') ∧
    leapfrog z' (state_neg r') (Fin 0.25) gauss
    = Some (start_z, state_neg start_r).
Proof.
  apply (leapfrog_momentum_flip gauss 0.25 start_z start_r).
  - apply gauss_shaped.
  - apply gauss_fin.
  - apply start_ok.
Defined.

(** ** [build_update]: the chains, from one update to the next *)






(** ** [build_update]: the acceptance rule *)




(** ** [build_update]: what an update reads of the chains *)





(** ** [log_joint] *)

Lemma iterkeys_dict_set {V} k (v : V) (d : dict V) k' :
  k' ∈ iterkeys (dict_set k v d) ↔ k' = k ∨ k' ∈ iterkeys d.
Proof.
  induction d as [|[k0 v0] d IH]; simpl.
  - rewrite list_elem_of_singleton. split; [by left|]. intros [?|H]; [done|].
    by apply elem_of_nil in H.
  - destruct (decide (k = k0)) as [->|Hne]; simpl.
    + rewrite !elem_of_cons. tauto.
    + rewrite !elem_of_cons, IH. tauto.
Qed.

Lemma data_variables_cons x qx data :
  data_variables ((x, qx) :: data)
  = match x with
    | DataRV x => x :: data_variables data
    | DataOther _ => data_variables data
    end.
Proof. by destruct x. Qed.

Lemma iterkeys_dict_swap g i data z k :
  k ∈ iterkeys (dict_swap_of g i data z)
  ↔ k ∈ iterkeys z ∨ k ∈ data_variables data.
Proof.
  unfold dict_swap_of. revert z.
  induction data as [|[x qx] data IH]; intros z.
  - simpl. split; [by left|]. intros [?|H]; [done|by apply elem_of_nil in H].
  - rewrite data_variables_cons. simpl foldl. rewrite IH.
    destruct x as [x|p]; [|done].
    rewrite elem_of_cons. destruct qx; rewrite iterkeys_dict_set; tauto.
Qed.

Lemma dict_get_is_Some_iff {V} (d : dict V) k :
  is_Some (dict_get k d) ↔ k ∈ iterkeys d.
Proof.
  split.
  - intros [v Hv]. by eapply dict_get_is_Some.
  - intros Hk. destruct (dict_get_of_key d k Hk) as [v Hv]. by exists v.
Qed.

Lemma for_each_is_Some {A S} (l : list A) (f : A → S → option S) s :
  (∀ x s, x ∈ l → is_Some (f x s)) → is_Some (for_each l f s).
Proof.
  revert s. induction l as [|a l IH]; intros s Hf; simpl; [done|].
  destruct (Hf a s ltac:(left)) as [s1 ->]. simpl.
  apply IH. intros. apply Hf. by right.
Qed.

Lemma is_Some_bind {A B} (m : option A) (k : A → option B) :
  is_Some m → (∀ x, is_Some (k x)) → is_Some (m ≫= k).
Proof. intros [x ->] Hk. apply Hk. Qed.

Lemma elem_of_data_variables data x :
  DataRV x ∈ data.*1 → x ∈ data_variables data.
Proof.
  unfold data_variables. intros Hx. apply list_elem_of_omap.
  by exists (DataRV x).
Qed.

(** X9: without a model wrapper, [log_joint] returns a value exactly when
    every latent variable is a key of [z_sample] or a random variable of the
    data; otherwise its lookup [dict_swap[z]] raises. *)
Theorem log_joint_defined_iff g self z_sample :
  model_wrapper self = None →
  is_Some (log_joint_method g self z_sample).1
  ↔ ∀ z, z ∈ iterkeys (latent_vars (hmc self)) →
         z ∈ iterkeys z_sample ∨ z ∈ data_variables (data_dict self).
Proof.
  intros Hw. unfold log_joint_method. rewrite Hw. simpl. split.
  - intros [out Hout] z Hz. apply bind_Some in Hout as (acc & Hfirst & _).
    destruct (for_each_Some_elem _ _ _ _ z Hfirst Hz) as (s1 & s2 & Hbody).
    apply bind_Some in Hbody as (v & Hv & _).
    eapply iterkeys_dict_swap. by eapply dict_get_is_Some.
  - intros Hkeys.
    set (ds := dict_swap_of g (scope_iter self + 1) (data_dict self) z_sample).
    assert (Hds : ∀ k, k ∈ iterkeys z_sample
                       ∨ k ∈ data_variables (data_dict self) →
                       is_Some (dict_get k ds)).
    { intros k Hk. apply dict_get_is_Some_iff. by apply iterkeys_dict_swap. }
    apply is_Some_bind.
    + apply for_each_is_Some. intros z s Hz.
      destruct (Hds z (Hkeys z Hz)) as [v ->]. by eexists.
    + intros acc. apply for_each_is_Some. intros [x|p] s Hx; [|by eexists].
      destruct (Hds x) as [v ->]; [|by eexists].
      right. by apply elem_of_data_variables.
Qed.

Lemma log_joint_defined_iff_witness :
  is_Some (log_joint_method unit_graph observed start_z).1
  ∧ (log_joint_method unit_graph observed []).1 = None.
Proof.
  pose proof (log_joint_defined_iff unit_graph observed start_z eq_refl)
    as Hyes.
  pose proof (log_joint_defined_iff unit_graph observed [] eq_refl) as Hno.
  split.
  - apply Hyes. intros z Hz. left. exact Hz.
  - destruct (log_joint_method unit_graph observed []).1 eqn:E; [|done].
    exfalso. destruct (proj1 Hno ltac:(by eexists) 0%nat ltac:(left))
      as [H|H]; [by apply elem_of_nil in H|].
    simpl in H. by repeat (apply elem_of_cons in H as [H|H]; [done|]).
Defined.

Lemma dict_set_twice {V} k (v w : V) (d : dict V) :
  dict_set k w (dict_set k v d) = dict_set k w d.
Proof.
  induction d as [|[k0 v0] d IH]; simpl.
  - by rewrite decide_True.
  - destruct (decide (k = k0)) as [->|Hne]; simpl.
    + by rewrite decide_True.
    + rewrite decide_False by done. by rewrite IH.
Qed.

Lemma dict_set_swap {V} k k' (v w : V) (d : dict V) :
  k ≠ k' → k ∈ iterkeys d →
  dict_set k' w (dict_set k v d) = dict_set k v (dict_set k' w d).
Proof.
  intros Hne. induction d as [|[k0 v0] d IH]; simpl; intros Hk.
  - by apply elem_of_nil in Hk.
  - destruct (decide (k = k0)) as [->|Hk0], (decide (k' = k0)) as [->|Hk0'];
      simpl; try done.
    + rewrite decide_False by done. by rewrite decide_True.
    + rewrite decide_True by done. by rewrite decide_False.
    + rewrite !decide_False by done.
      apply elem_of_cons in Hk as [?|Hk]; [done|]. by rewrite IH.
Qed.

Lemma dict_swap_of_observed g i data z x v :
  x ∈ data_variables data → x ∈ iterkeys z →
  dict_swap_of g i data (dict_set x v z) = dict_swap_of g i data z.
Proof.
  unfold dict_swap_of. revert z.
  induction data as [|[y qy] data IH]; intros z Hx Hz.
  - by apply elem_of_nil in Hx.
  - rewrite data_variables_cons in Hx. simpl foldl.
    destruct y as [y|p]; [|by apply IH].
    destruct (decide (x = y)) as [->|Hne].
    + destruct qy; by rewrite dict_set_twice.
    + apply elem_of_cons in Hx as [?|Hx]; [done|].
      destruct qy; (rewrite dict_set_swap by done; apply IH; [done|];
                    apply iterkeys_dict_set; by right).
Qed.

(** X10: without a model wrapper, [log_joint] takes the value of a random
    variable of the data from the data: the value that [z_sample] holds for
    such a variable has no effect on the call. *)
Theorem log_joint_ignores_sample_of_observed g self z_sample x v :
  model_wrapper self = None →
  x ∈ data_variables (data_dict self) → x ∈ iterkeys z_sample →
  log_joint_method g self (dict_set x v z_sample)
  = log_joint_method g self z_sample.
Proof.
  intros Hw Hx Hz. unfold log_joint_method. rewrite Hw. simpl.
  by rewrite dict_swap_of_observed.
Qed.

Lemma log_joint_ignores_sample_of_observed_witness :
  log_joint_method unit_graph observed
    (dict_set 2%nat (vec2 9 9) (start_z ++ [(2%nat, vec2 0 0)]))
  = log_joint_method unit_graph observed (start_z ++ [(2%nat, vec2 0 0)]).
Proof.
  apply (log_joint_ignores_sample_of_observed unit_graph observed
           (start_z ++ [(2%nat, vec2 0 0)]) 2%nat (vec2 9 9)).
  - reflexivity.
  - simpl. left.
  - simpl. right. right. left.
Defined.

Lemma dict_swap_of_random_variable_data g i data z :
  dict_swap_of g i (random_variable_data data) z = dict_swap_of g i data z.
Proof.
  unfold dict_swap_of, random_variable_data. revert z.
  induction data as [|[[x|p] qx] data IH]; intros z; [done|..].
  - rewrite filter_cons_True by done. simpl. apply IH.
  - rewrite filter_cons_False by done. simpl. apply IH.
Qed.

Lemma likelihood_loop_random_variable_data {S} data
    (f : var → S → option S) (s : S) :
  for_each (random_variable_data data).*1
    (fun x acc => match x with DataRV x => f x acc | DataOther _ => Some acc end)
    s
  = for_each data.*1
      (fun x acc => match x with DataRV x => f x acc | DataOther _ => Some acc end)
      s.
Proof.
  unfold random_variable_data. revert s.
  induction data as [|[[x|p] qx] data IH]; intros s; [done|..].
  - rewrite filter_cons_True by done. csimpl.
    destruct (f x s); simpl; [apply IH|done].
  - rewrite filter_cons_False by done. csimpl. apply IH.
Qed.

(** X11: without a model wrapper, [log_joint] skips every entry of the data
    whose key is not a random variable: the call returns what it returns on
    the data without these entries, and counts the same. *)
Theorem log_joint_skips_other_data g self z_sample :
  model_wrapper self = None →
  (log_joint_method g (with_data self (random_variable_data (data_dict self)))
     z_sample).1
  = (log_joint_method g self z_sample).1
  ∧ scope_iter (log_joint_method g
       (with_data self (random_variable_data (data_dict self))) z_sample).2
    = scope_iter (log_joint_method g self z_sample).2.
Proof.
  intros Hw. unfold log_joint_method. simpl. rewrite Hw. simpl.
  split; [|done]. rewrite dict_swap_of_random_variable_data.
  match goal with
  | |- ?a ≫= ?k1 = ?a ≫= ?k2 =>
      destruct a as [acc|]; [simpl|done]
  end.
  apply (likelihood_loop_random_variable_data (data_dict self)
           (fun x log_joint =>
              v ← dict_get x (dict_swap_of g (scope_iter self + 1)
                                (data_dict self) z_sample);
              Some (sadd log_joint (tf_reduce_sum
                (copy_log_prob g (likelihood_ (scope_iter self + 1)) x
                   (dict_swap_of g (scope_iter self + 1) (data_dict self)
                      z_sample) v))))).
Qed.

Lemma log_joint_skips_other_data_witness :
  (log_joint_method unit_graph
     (with_data observed (random_variable_data (data_dict observed)))
     start_z).1
  = (log_joint_method unit_graph observed start_z).1.
Proof.
  apply (log_joint_skips_other_data unit_graph observed start_z). reflexivity.
Defined.

Lemma log_joint_method_wrapper g self z :
  model_wrapper (log_joint_method g self z).2 = model_wrapper self.
Proof.
  unfold log_joint_method. destruct (model_wrapper self) eqn:E; simpl; done.
Qed.

(** X12: without a model wrapper every call of [log_joint] adds 1 to
    [scope_iter], whether it returns or raises, so a run of calls leaves the
    counter advanced by the number of calls; with a model wrapper the
    counter never moves. *)
Theorem log_joint_calls_count g self zs :
  scope_iter (log_joint_calls g self zs).2
  = match model_wrapper self with
    | None => (scope_iter self + Z.of_nat (length zs))%Z
    | Some _ => scope_iter self
    end
  ∧ length (log_joint_calls g self zs).1 = length zs.
Proof.
  revert self. induction zs as [|z zs IH]; intros self.
  - simpl. split; [|done]. destruct (model_wrapper self); [done|lia].
  - simpl. destruct (log_joint_method g self z) as [out self'] eqn:E.
    pose proof (log_joint_method_wrapper g self z) as Hw. rewrite E in Hw.
    simpl in Hw.
    destruct (log_joint_calls g self' zs) as [outs self''] eqn:E'.
    destruct (IH self') as [Hcount Hlen]. rewrite E' in Hcount, Hlen.
    simpl in *. split; [|by rewrite Hlen]. rewrite Hcount, Hw.
    assert (Hstep : scope_iter self'
                    = match model_wrapper self with
                      | None => (scope_iter self + 1)%Z
                      | Some _ => scope_iter self
                      end).
    { unfold log_joint_method in E. destruct (model_wrapper self);
        by injection E as _ <-. }
    rewrite Hstep. destruct (model_wrapper self); [done|lia].
Qed.
